(** * SequentialGenerator: a shallow embedding of the code generator class

    The development follows the TypeScript class [SequentialGenerator],
    which composes codes [prefix sep date sep sequence] and takes them
    apart again.

    Modelling choices.
    - JavaScript strings are [string]: sequences of 8-bit code units.
    - JavaScript numbers are integers extended with [NaN].  This is exact
      for the safe integers, up to [MAX_SAFE_INTEGER] in absolute value,
      where doubles hold every integer and print it in plain decimal.
      Beyond that range the code rounds and, from 1e21 on, prints an
      exponent; the definitions below do not describe that.  Every
      statement about a number supplied by a caller or read from a code
      therefore carries the bound as a hypothesis; the sequence stored by
      [generate()] only moves by one per call and stays inside the range.
    - [dayjs().tz(zone).format(pattern)] is a function [Clock] from zone and
      pattern to the rendered date.  One method call sees one instant, and
      every zone name is accepted.
    - A method that assigns to a field returns the instance it leaves
      behind; a method that may throw returns a [completion]. *)

From Stdlib Require Import ZArith Lia Bool List Ascii String.
From Stdlib Require Import DecimalString DecimalPos.
From Equations Require Import Equations.

Local Open Scope string_scope.
Local Open Scope Z_scope.

(** ** The JavaScript primitives used by the class *)

Module JS.

(** A JavaScript number, restricted to the values the class manipulates:
    an integer, or the result of a failed [parseInt].  [Num z] stands for
    the double of that value when [z] is a safe integer. *)
Inductive number : Type :=
| Num (z : Z)
| NaN.

(** [Number.MAX_SAFE_INTEGER]: up to this bound doubles hold every integer
    exactly, so that [+ 1], [String] and [parseInt] act on them as [plus1],
    [toString] and [parseInt] below act on integers. *)
Definition MAX_SAFE_INTEGER : Z := 2 ^ 53 - 1.

(** [n + 1], exact while the result is at most [MAX_SAFE_INTEGER + 1]. *)
Definition plus1 (n : number) : number :=
  match n with
  | Num z => Num (z + 1)
  | NaN => NaN
  end.

(** [s.length] *)
Definition strlen (s : string) : Z := Z.of_nat (String.length s).

Fixpoint take (n : nat) (s : string) : string :=
  match n, s with
  | S n', String c s' => String c (take n' s')
  | _, _ => EmptyString
  end.

Fixpoint drop (n : nat) (s : string) : string :=
  match n, s with
  | S n', String _ s' => drop n' s'
  | _, _ => s
  end.

(** Index arguments of [substring] are clamped to [0 .. s.length]. *)
Definition clamp (s : string) (i : Z) : nat :=
  Z.to_nat (Z.min (Z.max i 0) (strlen s)).

(** [s.substring(start, finish)]; [finish = None] is the one-argument
    form.  The two clamped indices are swapped when out of order. *)
Definition substring (s : string) (start : Z) (finish : option Z) : string :=
  let a := clamp s start in
  let b := match finish with
           | Some e => clamp s e
           | None => String.length s
           end in
  take (Nat.max a b - Nat.min a b) (drop (Nat.min a b) s).

(** [s.startsWith(p)] *)
Definition startsWith (s p : string) : bool := String.prefix p s.

(** [s.lastIndexOf(search)], scanning the suffixes of [s]; [i] is the
    index of the first character of [s] in the whole string. *)
Fixpoint lastIndexOf_from (i : Z) (s search : string) : Z :=
  let later :=
    match s with
    | EmptyString => -1
    | String _ s' => lastIndexOf_from (i + 1) s' search
    end in
  if 0 <=? later then later
  else if String.prefix search s then i else -1.

Definition lastIndexOf (s search : string) : Z := lastIndexOf_from 0 s search.

Fixpoint replicate (n : nat) (c : ascii) : string :=
  match n with
  | O => EmptyString
  | S n' => String c (replicate n' c)
  end.

(** [s.padStart(targetLength, c)] for a one-character filler. *)
Definition padStart (s : string) (targetLength : Z) (c : ascii) : string :=
  replicate (Z.to_nat (targetLength - strlen s)) c ++ s.

(** [String(n)]: the plain decimal form, as printed for safe integers. *)
Definition toString (n : number) : string :=
  match n with
  | Num z => NilZero.string_of_int (Z.to_int z)
  | NaN => "NaN"
  end.

Definition isDigit (c : ascii) : bool :=
  let n := nat_of_ascii c in (48 <=? n)%nat && (n <=? 57)%nat.

(** White space skipped by [parseInt]: TAB, LF, VT, FF, CR, SP, NBSP. *)
Definition isWhiteSpace (c : ascii) : bool :=
  let n := nat_of_ascii c in
  ((9 <=? n)%nat && (n <=? 13)%nat) || (n =? 32)%nat || (n =? 160)%nat.

Fixpoint skipWhiteSpace (s : string) : string :=
  match s with
  | String c s' => if isWhiteSpace c then skipWhiteSpace s' else s
  | EmptyString => s
  end.

Fixpoint digitPrefix (s : string) : string :=
  match s with
  | String c s' => if isDigit c then String c (digitPrefix s') else EmptyString
  | EmptyString => EmptyString
  end.

(** The mathematical value of a non-empty digit string. *)
Definition digitsValue (s : string) : number :=
  match NilZero.uint_of_string s with
  | Some d => Num (Z.of_uint d)
  | None => NaN
  end.

Definition negate (n : number) : number :=
  match n with
  | Num z => Num (- z)
  | NaN => NaN
  end.

(** [parseInt(s, 10)]: exact when the digits denote a safe integer. *)
Definition parseInt (s : string) : number :=
  match skipWhiteSpace s with
  | String c s' =>
      if Ascii.eqb c "-" then negate (digitsValue (digitPrefix s'))
      else if Ascii.eqb c "+" then digitsValue (digitPrefix s')
      else digitsValue (digitPrefix (String c s'))
  | EmptyString => NaN
  end.

Fixpoint allDigits (s : string) : bool :=
  match s with
  | EmptyString => true
  | String c s' => isDigit c && allDigits s'
  end.

(** [/^\d+$/.test(s)] *)
Definition test_digits (s : string) : bool :=
  match s with
  | EmptyString => false
  | _ => allDigits s
  end.

(** Truthiness of a string: [if (s)]. *)
Definition truthy (s : string) : bool :=
  match s with
  | EmptyString => false
  | _ => true
  end.

End JS.

Import JS.

(** ** The class *)

(** [dayjs().tz(timeZone).format(dateFormat)] at the instant of a call. *)
Definition Clock : Type := string -> string -> string.

(** The result of a method that may throw. *)
Inductive completion (A : Type) : Type :=
| Return (value : A)
| Throw (message : string).
Arguments Return {A} value.
Arguments Throw {A} message.

(** [SequentialGeneratorConfig]: every option may be absent. *)
Module Config.
Record t : Type := make {
  prefix : option string;
  dateFormat : option string;
  sequentialLength : option Z;
  timeZone : option string;
  separator : option string
}.
Definition empty : t := make None None None None None.
End Config.

(** The fields of an instance. *)
Record SequentialGenerator : Type := mkGenerator {
  prefix : string;
  dateFormat : string;
  sequentialLength : Z;
  timeZone : string;
  separator : string;
  lastGeneratedDate : option string;
  currentSequence : number
}.

Definition set_sequentialLength (w : Z) (this : SequentialGenerator) : SequentialGenerator :=
  mkGenerator (prefix this) (dateFormat this) w (timeZone this) (separator this)
              (lastGeneratedDate this) (currentSequence this).

Definition set_runtime (d : option string) (n : number) (this : SequentialGenerator)
  : SequentialGenerator :=
  mkGenerator (prefix this) (dateFormat this) (sequentialLength this) (timeZone this)
              (separator this) d n.

(** [config.x !== undefined ? config.x : dflt] *)
Definition definedOr {A : Type} (o : option A) (dflt : A) : A :=
  match o with
  | Some a => a
  | None => dflt
  end.

(** [config.x || dflt] on strings *)
Definition truthyOr (o : option string) (dflt : string) : string :=
  match o with
  | Some a => if truthy a then a else dflt
  | None => dflt
  end.

Definition constructor (config : Config.t) : SequentialGenerator :=
  {| prefix := definedOr (Config.prefix config) "";
     dateFormat := definedOr (Config.dateFormat config) "YYYYMMDD";
     sequentialLength := definedOr (Config.sequentialLength config) 4;
     timeZone := truthyOr (Config.timeZone config) "UTC";
     separator := definedOr (Config.separator config) "";
     lastGeneratedDate := None;
     currentSequence := Num 0 |}.

Definition reset (this : SequentialGenerator) : SequentialGenerator :=
  set_runtime None (Num 0) this.

Definition getDateFormatLength (now : Clock) (this : SequentialGenerator) : Z :=
  strlen (now (timeZone this) (dateFormat this)).

Definition getDateKey (now : Clock) (this : SequentialGenerator) : string :=
  now (timeZone this) (dateFormat this).

(** The template literal shared by [generate] and [generateFromSequence]. *)
Definition compose (this : SequentialGenerator) (key sequenceString : string) : string :=
  prefix this ++ separator this ++ key ++ separator this ++ sequenceString.

Definition sequenceString_of (sequence : number) (this : SequentialGenerator) : string :=
  padStart (toString sequence) (sequentialLength this) "0".

(** [sequenceString.length > this.sequentialLength] *)
Definition overflows (sequence : number) (this : SequentialGenerator) : bool :=
  strlen (sequenceString_of sequence this) >? sequentialLength this.

(** Case analysis on a computed value that keeps the equation. *)
Definition inspect {A : Type} (a : A) : {b : A | a = b} := exist _ a eq_refl.

(** [generateFromSequence(sequence, dateKey?)].  The recursive call after a
    width increment terminates because the sequence [1] needs one digit. *)
Equations? generateFromSequence (now : Clock) (sequence : number)
  (dateKey : option string) (this : SequentialGenerator)
  : string * SequentialGenerator
  by wf (Z.to_nat (strlen (toString sequence) - sequentialLength this)) lt :=
generateFromSequence now sequence dateKey this
  with inspect (overflows sequence this) => {
  | exist _ true _ =>
      generateFromSequence now (Num 1)
        (Some (truthyOr dateKey (getDateKey now this)))
        (set_sequentialLength (sequentialLength this + 1) this);
  | exist _ false _ =>
      (compose this (truthyOr dateKey (getDateKey now this))
         (sequenceString_of sequence this), this) }.
Proof.
  (* an overflow means that [String(sequence)] is longer than the width *)
  assert (Hpad : forall n t, String.length (replicate n "0" ++ t)
                             = (n + String.length t)%nat).
  { induction n as [|n IH]; intros t; simpl; [reflexivity|]. now rewrite IH. }
  assert (Hlen : 1 <= strlen (toString sequence)).
  { unfold strlen. destruct sequence as [[|p|p]|]; simpl; try lia.
    destruct (Pos.to_uint p); simpl; lia. }
  unfold overflows, sequenceString_of, padStart in e.
  unfold strlen in e at 1. rewrite Hpad in e. fold (strlen (toString sequence)) in e.
  apply Z.gtb_lt in e.
  match goal with
  | |- (Z.to_nat ?m < _)%nat => change m with (1 - (sequentialLength this + 1))
  end.
  unfold strlen in *. lia.
Qed.

(** [generate()] *)
Definition generate (now : Clock) (this : SequentialGenerator)
  : string * SequentialGenerator :=
  let currentDate := now (timeZone this) (dateFormat this) in
  let sequence :=
    match lastGeneratedDate this with
    | Some last => if String.eqb currentDate last
                   then plus1 (currentSequence this) else Num 1
    | None => Num 1
    end in
  let this1 := set_runtime (Some currentDate) sequence this in
  let sequenceString := sequenceString_of sequence this1 in
  if strlen sequenceString >? sequentialLength this1 then
    generateFromSequence now (Num 1) (Some currentDate)
      (set_sequentialLength (sequentialLength this1 + 1) this1)
  else
    (prefix this1 ++ separator this1 ++ currentDate ++ separator this1 ++ sequenceString,
     this1).

(** [extractDate(code)] *)
Definition extractDate (now : Clock) (this : SequentialGenerator) (code : string) : string :=
  let startIndex := strlen (prefix this) + strlen (separator this) in
  let fallback :=
    let dateLength := getDateFormatLength now this in
    substring code startIndex (Some (startIndex + dateLength)) in
  if truthy (separator this) then
    let lastSeparatorIndex := lastIndexOf code (separator this) in
    if lastSeparatorIndex >? startIndex
    then substring code startIndex (Some lastSeparatorIndex)
    else fallback
  else fallback.

(** The [startIndex] computed by [extractSequence]. *)
Definition sequenceStartIndex (now : Clock) (this : SequentialGenerator) (code : string)
  : Z :=
  if truthy (separator this) then
    let lastSeparatorIndex := lastIndexOf code (separator this) in
    if lastSeparatorIndex =? -1
    then strlen code - sequentialLength this
    else lastSeparatorIndex + strlen (separator this)
  else
    let dateLength := getDateFormatLength now this in
    strlen (prefix this) + strlen (separator this) + dateLength
    + strlen (separator this).

(** The [sequenceString] parsed by [extractSequence]: the sequence segment
    embedded in a code. *)
Definition sequenceSegment (now : Clock) (this : SequentialGenerator) (code : string)
  : string :=
  substring code (sequenceStartIndex now this code) None.

(** [extractSequence(code)] *)
Definition extractSequence (now : Clock) (this : SequentialGenerator) (code : string)
  : number :=
  parseInt (sequenceSegment now this code).

(** [validate(code)] *)
Definition validate (now : Clock) (this : SequentialGenerator) (code : string) : bool :=
  if negb (startsWith code (prefix this)) then false
  else
    let dateLength := getDateFormatLength now this in
    if strlen code <? strlen (prefix this) + strlen (separator this) * 2 + dateLength + 1
    then false
    else if truthy (separator this) then
      let lastSeparatorIndex := lastIndexOf code (separator this) in
      if lastSeparatorIndex =? -1 then false
      else test_digits
             (substring code (lastSeparatorIndex + strlen (separator this)) None)
    else
      let startIndex := strlen (prefix this) + strlen (separator this) + dateLength
                        + strlen (separator this) in
      test_digits (substring code startIndex None).

(** The object returned by [parse]. *)
Record ParsedCode : Type := mkParsed {
  parsed_prefix : string;
  parsed_date : string;
  parsed_sequence : number
}.

(** [parse(code)] *)
Definition parse (now : Clock) (this : SequentialGenerator) (code : string)
  : completion ParsedCode * SequentialGenerator :=
  if negb (validate now this code) then
    (Throw "Invalid code format provided to parse", this)
  else
    (Return (mkParsed (prefix this) (extractDate now this code)
               (extractSequence now this code)), this).

(** [increment(lastCode)] *)
Definition increment (now : Clock) (this : SequentialGenerator) (lastCode : string)
  : completion string * SequentialGenerator :=
  if negb (validate now this lastCode) then
    (Throw "Invalid code format provided to increment", this)
  else
    let currentDate := getDateKey now this in
    let lastCodeDate := extractDate now this lastCode in
    let '(nextSequence, this1) :=
      if String.eqb lastCodeDate currentDate then
        let lastSequence := extractSequence now this lastCode in
        let lastSeqLength :=
          if truthy (separator this) then
            let lastSeparatorIndex := lastIndexOf lastCode (separator this) in
            strlen lastCode - (lastSeparatorIndex + strlen (separator this))
          else
            let dateLength := getDateFormatLength now this in
            strlen lastCode - (strlen (prefix this) + dateLength) in
        (plus1 lastSequence,
         if lastSeqLength >? sequentialLength this
         then set_sequentialLength lastSeqLength this else this)
      else (Num 1, this) in
    let '(code, this2) := generateFromSequence now nextSequence (Some currentDate) this1 in
    (Return code, this2).

(** The public operations, as calls on an instance. *)
Inductive call : Type :=
| Generate
| GenerateFromSequence (sequence : number) (dateKey : option string)
| Increment (lastCode : string)
| Validate (code : string)
| Parse (code : string)
| ExtractDate (code : string)
| ExtractSequence (code : string)
| GetDateKey
| Reset.

(** The instance left behind by a call. *)
Definition stateAfter (now : Clock) (c : call) (this : SequentialGenerator)
  : SequentialGenerator :=
  match c with
  | Generate => snd (generate now this)
  | GenerateFromSequence sequence dateKey =>
      snd (generateFromSequence now sequence dateKey this)
  | Increment lastCode => snd (increment now this lastCode)
  | Parse code => snd (parse now this code)
  | Validate _ | ExtractDate _ | ExtractSequence _ | GetDateKey => this
  | Reset => reset this
  end.

(** A clock that renders one fixed date key. *)
Definition fixedClock (key : string) : Clock := fun _ _ => key.

(** Repeated [generate()] calls under one clock; the codes come out in
    call order. *)
Fixpoint generate_times (n : nat) (now : Clock) (this : SequentialGenerator)
  : list string * SequentialGenerator :=
  match n with
  | O => (nil, this)
  | S n' =>
      let '(code, this1) := generate now this in
      let '(codes, this2) := generate_times n' now this1 in
      (code :: codes, this2)
  end.

(** [search] occurs in [s] at offset [k]. *)
Definition occursAt (search s : string) (k : nat) : Prop :=
  (k <= String.length s)%nat /\ String.prefix search (drop k s) = true.

(** A sequence of calls, each made at its own instant. *)
Fixpoint run (trace : list (Clock * call)) (this : SequentialGenerator)
  : SequentialGenerator :=
  match trace with
  | nil => this
  | (now, c) :: rest => run rest (stateAfter now c this)
  end.

(** Whether the last character of a string is a decimal digit. *)
Fixpoint endsWithDigit (s : string) : bool :=
  match s with
  | EmptyString => false
  | String c s' =>
      match s' with
      | EmptyString => isDigit c
      | String _ _ => endsWithDigit s'
      end
  end.

(** Generation followed by extraction gives back the sequence value and
    the date key. *)
Definition roundTrips (now : Clock) (this : SequentialGenerator) (n : Z) : Prop :=
  let '(code, this') := generateFromSequence now (Num n) None this in
  extractSequence now this' code = Num n /\
  extractDate now this' code = getDateKey now this'.

(** [increment] adopts the width of the embedded sequence segment and
    renders the next sequence value at that width. *)
Definition incrementPreservesWidth (now : Clock) (this : SequentialGenerator)
  (code : string) : Prop :=
  let segment := sequenceSegment now this code in
  increment now this code =
  (Return (compose this (getDateKey now this)
             (padStart (toString (plus1 (extractSequence now this code)))
                (strlen segment) "0")),
   set_sequentialLength (strlen segment) this).

(** Following the specification's wording of the validation rule: the
    sequence segment is the suffix after the last separator when that
    separator lies strictly behind the prefix-and-separator region, and
    otherwise the suffix left by a date segment of the pattern's length. *)
Definition spec_sequenceSegment (now : Clock) (this : SequentialGenerator)
  (code : string) : string :=
  let dateLength := getDateFormatLength now this in
  if truthy (separator this) then
    let lastSeparatorIndex := lastIndexOf code (separator this) in
    if lastSeparatorIndex >? strlen (prefix this) + strlen (separator this) then
      substring code (lastSeparatorIndex + strlen (separator this)) None
    else
      substring code (strlen (prefix this) + strlen (separator this) + dateLength
                      + strlen (separator this)) None
  else
    substring code (strlen (prefix this) + dateLength) None.

(** Following the specification's wording: the three conditions under
    which a code is valid. *)
Definition spec_validate (now : Clock) (this : SequentialGenerator) (code : string)
  : bool :=
  startsWith code (prefix this)
  && (strlen (prefix this) + 2 * strlen (separator this)
      + getDateFormatLength now this + 1 <=? strlen code)
  && test_digits (spec_sequenceSegment now this code).

(** The segment that [validate] inspects, described by the shape of the
    code: with a separator, what follows its last occurrence; without
    one, what follows the prefix and a date of the pattern's length. *)
Definition isSequenceSegment (now : Clock) (this : SequentialGenerator)
  (code segment : string) : Prop :=
  if truthy (separator this) then
    exists head,
      code = head ++ separator this ++ segment /\
      forall head' rest', code = head' ++ separator this ++ rest' ->
                          (String.length head' <= String.length head)%nat
  else
    exists head,
      code = head ++ segment /\
      strlen head = strlen (prefix this) + getDateFormatLength now this.

(** Instances used in the examples. *)
Definition oneDigitGenerator : SequentialGenerator :=
  constructor (Config.make None None (Some 1) (Some "UTC") None).

Definition invoiceGenerator : SequentialGenerator :=
  constructor (Config.make (Some "INV") None (Some 4) (Some "UTC") (Some "-")).

Definition jan1 : Clock := fixedClock "20230101".

(** Two instances carry the same configuration strings. *)
Definition sameConfig (a b : SequentialGenerator) : Prop :=
  prefix a = prefix b /\ dateFormat a = dateFormat b /\
  timeZone a = timeZone b /\ separator a = separator b.

(** The runtime fields as [generate] and [reset] leave them: nothing
    stored and sequence 0, or a stored key with a sequence of at least 1. *)
Definition wellFormedRuntime (this : SequentialGenerator) : Prop :=
  (lastGeneratedDate this = None /\ currentSequence this = Num 0) \/
  (exists key z, lastGeneratedDate this = Some key /\
                 currentSequence this = Num z /\ 1 <= z).

(** ** Facts about the string primitives *)

Module StringFacts.

Lemma length_app (a b : string) :
  String.length (a ++ b) = (String.length a + String.length b)%nat.
Proof. induction a as [|c a IH]; simpl; [reflexivity | now rewrite IH]. Qed.

Lemma strlen_app (a b : string) : strlen (a ++ b) = strlen a + strlen b.
Proof. unfold strlen. rewrite length_app. lia. Qed.

Lemma strlen_nonneg (s : string) : 0 <= strlen s.
Proof. unfold strlen. lia. Qed.

Lemma app_assoc (a b c : string) : (a ++ b) ++ c = a ++ b ++ c.
Proof. induction a as [|x a IH]; simpl; [reflexivity | now rewrite IH]. Qed.

Lemma app_nil_r (a : string) : a ++ "" = a.
Proof. induction a as [|x a IH]; simpl; [reflexivity | now rewrite IH]. Qed.

Lemma drop_0 (s : string) : drop 0 s = s.
Proof. destruct s; reflexivity. Qed.

Lemma drop_nil (n : nat) : drop n "" = "".
Proof. destruct n; reflexivity. Qed.

Lemma take_nil (n : nat) : take n "" = "".
Proof. destruct n; reflexivity. Qed.

Lemma drop_app_le (a b : string) (n : nat) :
  (n <= String.length a)%nat -> drop n (a ++ b) = drop n a ++ b.
Proof.
  revert n. induction a as [|x a IH]; intros [|n] Hn; simpl in *;
    try reflexivity; try lia.
  apply IH. lia.
Qed.

Lemma drop_app_ge (a b : string) (n : nat) :
  (String.length a <= n)%nat -> drop n (a ++ b) = drop (n - String.length a) b.
Proof.
  revert n. induction a as [|x a IH]; intros n Hn; simpl in *.
  - now rewrite Nat.sub_0_r.
  - destruct n as [|n]; [lia|]. simpl. apply IH. lia.
Qed.

Lemma drop_app_exact (a b : string) : drop (String.length a) (a ++ b) = b.
Proof. rewrite drop_app_ge, Nat.sub_diag, drop_0; [reflexivity | lia]. Qed.

Lemma drop_drop (m n : nat) (s : string) : drop m (drop n s) = drop (n + m) s.
Proof.
  revert s. induction n as [|n IH]; intros s; simpl.
  - now rewrite ?drop_0.
  - destruct s as [|c s]; [now rewrite drop_nil | apply IH].
Qed.

Lemma drop_all (s : string) (n : nat) : (String.length s <= n)%nat -> drop n s = "".
Proof.
  revert n. induction s as [|c s IH]; intros n Hn; simpl in *.
  - apply drop_nil.
  - destruct n as [|n]; [lia|]. simpl. apply IH. lia.
Qed.

Lemma length_drop (n : nat) (s : string) :
  String.length (drop n s) = (String.length s - n)%nat.
Proof.
  revert s. induction n as [|n IH]; intros s.
  - rewrite ?drop_0. simpl. lia.
  - destruct s as [|c s]; simpl; [reflexivity | apply IH].
Qed.

Lemma take_all (s : string) (n : nat) : (String.length s <= n)%nat -> take n s = s.
Proof.
  revert n. induction s as [|c s IH]; intros n Hn; simpl in *.
  - apply take_nil.
  - destruct n as [|n]; [lia|]. simpl. f_equal. apply IH. lia.
Qed.

Lemma length_take (n : nat) (s : string) :
  (n <= String.length s)%nat -> String.length (take n s) = n.
Proof.
  revert s. induction n as [|n IH]; intros [|c s] Hs; simpl in *; try lia.
  f_equal. apply IH. lia.
Qed.

Lemma take_app_exact (a b : string) : take (String.length a) (a ++ b) = a.
Proof. induction a as [|x a IH]; simpl; [apply take_nil + now destruct b | now rewrite IH]. Qed.

Lemma take_drop (n : nat) (s : string) : take n s ++ drop n s = s.
Proof.
  revert s. induction n as [|n IH]; intros s.
  - rewrite ?drop_0. now destruct s.
  - destruct s as [|c s]; simpl; [reflexivity | now rewrite IH].
Qed.

Lemma prefix_app (p r : string) : String.prefix p (p ++ r) = true.
Proof.
  induction p as [|c p IH]; simpl; [now destruct r|].
  destruct (ascii_dec c c); [assumption | congruence].
Qed.

Lemma prefix_inv (p s : string) :
  String.prefix p s = true -> s = p ++ drop (String.length p) s.
Proof.
  revert s. induction p as [|c p IH]; intros s H; simpl.
  - now rewrite ?drop_0.
  - destruct s as [|x s]; simpl in H; [discriminate|].
    destruct (ascii_dec c x) as [->|]; [|discriminate].
    simpl. f_equal. now apply IH.
Qed.

Lemma prefix_length (p s : string) :
  String.prefix p s = true -> (String.length p <= String.length s)%nat.
Proof.
  intros H. apply prefix_inv in H. rewrite H, length_app. lia.
Qed.

Lemma startsWith_iff (s p : string) :
  startsWith s p = true <-> exists rest, s = p ++ rest.
Proof.
  unfold startsWith. split.
  - intros H. eexists. now apply prefix_inv.
  - intros [rest ->]. apply prefix_app.
Qed.

Lemma truthy_false (s : string) : truthy s = false <-> s = "".
Proof. destruct s; simpl; split; congruence. Qed.

Lemma truthy_true (s : string) : truthy s = true <-> s <> "".
Proof. destruct s; simpl; split; congruence. Qed.

Lemma truthy_strlen (s : string) : truthy s = true -> 1 <= strlen s.
Proof. destruct s; simpl; [discriminate|]. unfold strlen. simpl. lia. Qed.

Lemma clamp_inside (s : string) (i : Z) :
  0 <= i <= strlen s -> clamp s i = Z.to_nat i.
Proof. intros H. unfold clamp. f_equal. lia. Qed.

(** One-argument [substring] inside the string drops a prefix. *)
Lemma substring_from (s : string) (a : Z) :
  0 <= a <= strlen s -> substring s a None = drop (Z.to_nat a) s.
Proof.
  intros H. unfold substring. rewrite clamp_inside by assumption.
  unfold strlen in H.
  rewrite Nat.min_l, Nat.max_r by lia.
  apply take_all. rewrite length_drop. lia.
Qed.

Lemma substring_range (s : string) (a b : Z) :
  0 <= a <= b -> b <= strlen s ->
  substring s a (Some b) = take (Z.to_nat (b - a)) (drop (Z.to_nat a) s).
Proof.
  intros H1 H2. unfold substring. rewrite !clamp_inside by lia.
  rewrite Nat.min_l, Nat.max_r by lia.
  f_equal. lia.
Qed.

Lemma strlen_substring_from (s : string) (a : Z) :
  0 <= a <= strlen s -> strlen (substring s a None) = strlen s - a.
Proof.
  intros H. rewrite substring_from by assumption.
  unfold strlen in *. rewrite length_drop. lia.
Qed.

Lemma substring_app_from (a b : string) :
  substring (a ++ b) (strlen a) None = b.
Proof.
  rewrite substring_from.
  - unfold strlen. rewrite Nat2Z.id. apply drop_app_exact.
  - rewrite strlen_app. pose proof (strlen_nonneg a). pose proof (strlen_nonneg b). lia.
Qed.

Lemma substring_app_range (a b c : string) :
  substring (a ++ b ++ c) (strlen a) (Some (strlen a + strlen b)) = b.
Proof.
  pose proof (strlen_nonneg a). pose proof (strlen_nonneg b).
  pose proof (strlen_nonneg c).
  rewrite substring_range by (rewrite ?strlen_app; lia).
  unfold strlen. rewrite Nat2Z.id, drop_app_exact.
  replace (Z.to_nat _) with (String.length b) by lia.
  apply take_app_exact.
Qed.

End StringFacts.

(** ** Facts about [lastIndexOf] *)

Module LastIndexFacts.
Import StringFacts.

Lemma occursAt_split (search s : string) (k : nat) :
  occursAt search s k <->
  exists a b, s = a ++ search ++ b /\ String.length a = k.
Proof.
  split.
  - intros [Hk Hp]. apply prefix_inv in Hp.
    exists (take k s), (drop (String.length search) (drop k s)). split.
    + rewrite <- Hp. symmetry. apply take_drop.
    + now apply length_take.
  - intros (a & b & -> & <-). split.
    + rewrite length_app. lia.
    + rewrite drop_app_exact. apply prefix_app.
Qed.

Lemma occursAt_cons (search : string) (c : ascii) (s : string) (k : nat) :
  occursAt search (String c s) (S k) <-> occursAt search s k.
Proof. unfold occursAt. simpl. split; intros [H1 H2]; split; auto; lia. Qed.

(** The scan returns the greatest offset at which [search] occurs, shifted
    by the start index, or [-1] when there is none. *)
Lemma lastIndexOf_from_spec (search s : string) (i : Z) :
  0 <= i ->
  (lastIndexOf_from i s search = -1 /\ forall k, ~ occursAt search s k) \/
  (exists k, lastIndexOf_from i s search = i + Z.of_nat k /\
             occursAt search s k /\
             forall k', occursAt search s k' -> (k' <= k)%nat).
Proof.
  revert i. induction s as [|c s IH]; intros i Hi.
  - cbn [lastIndexOf_from]. change (0 <=? -1) with false. cbv iota.
    destruct (String.prefix search "") eqn:Hp.
    + right. exists 0%nat. split; [lia|]. split; [split; [simpl; lia | assumption]|].
      intros k' [Hk' _]. simpl in Hk'. lia.
    + left. split; [reflexivity|]. intros k [Hk Hk2].
      simpl in Hk. assert (k = 0%nat) by lia. subst k. change (drop 0 "") with "" in Hk2. congruence.
  - cbn [lastIndexOf_from].
    destruct (IH (i + 1)) as [[Hr Hnone] | (k & Hr & Hocc & Hlast)]; [lia| |].
    + rewrite Hr. change (0 <=? -1) with false. cbv iota.
      destruct (String.prefix search (String c s)) eqn:Hp.
      * right. exists 0%nat. split; [lia|]. split.
        -- split; [simpl; lia | assumption].
        -- intros [|k'] Hk'; [lia|]. apply occursAt_cons in Hk'.
           now apply Hnone in Hk'.
      * left. split; [reflexivity|]. intros [|k] Hk.
        -- destruct Hk as [_ Hk]. change (drop 0 (String c s)) with (String c s) in Hk.
           congruence.
        -- apply occursAt_cons in Hk. now apply Hnone in Hk.
    + rewrite Hr. destruct (0 <=? i + 1 + Z.of_nat k) eqn:Hle;
        [|apply Z.leb_gt in Hle; lia].
      right. exists (S k). split; [lia|]. split.
      * now apply occursAt_cons.
      * intros [|k'] Hk'; [lia|]. apply occursAt_cons in Hk'.
        apply Hlast in Hk'. lia.
Qed.

Lemma lastIndexOf_spec (search s : string) :
  (lastIndexOf s search = -1 /\ forall k, ~ occursAt search s k) \/
  (exists k, lastIndexOf s search = Z.of_nat k /\
             occursAt search s k /\
             forall k', occursAt search s k' -> (k' <= k)%nat).
Proof.
  unfold lastIndexOf.
  destruct (lastIndexOf_from_spec search s 0) as [H | (k & H1 & H2)]; [lia | now left |].
  right. exists k. now rewrite H1.
Qed.

(** A found index leaves room for the whole search string. *)
Lemma lastIndexOf_bounds (search s : string) :
  lastIndexOf s search <> -1 ->
  0 <= lastIndexOf s search /\
  lastIndexOf s search + strlen search <= strlen s.
Proof.
  intros Hne.
  destruct (lastIndexOf_spec search s) as [[H _] | (k & H & [Hk Hp] & _)];
    [congruence|].
  rewrite H. apply prefix_length in Hp. rewrite length_drop in Hp.
  unfold strlen. lia.
Qed.

Lemma lastIndexOf_unique (search s : string) (k : nat) :
  occursAt search s k ->
  (forall k', occursAt search s k' -> (k' <= k)%nat) ->
  lastIndexOf s search = Z.of_nat k.
Proof.
  intros Hocc Hlast.
  destruct (lastIndexOf_spec search s) as [[_ Hnone] | (k1 & H1 & Hocc1 & Hlast1)].
  - now apply Hnone in Hocc.
  - rewrite H1. apply Hlast in Hocc1. apply Hlast1 in Hocc. lia.
Qed.

End LastIndexFacts.

(** ** Facts about number rendering and parsing *)

Module NumberFacts.
Import StringFacts.

Lemma isDigit_not_space (c : ascii) : isDigit c = true -> isWhiteSpace c = false.
Proof. destruct c as [[] [] [] [] [] [] [] []]; vm_compute; congruence. Qed.

Lemma isDigit_not_sign (c : ascii) :
  isDigit c = true -> Ascii.eqb c "-" = false /\ Ascii.eqb c "+" = false.
Proof. destruct c as [[] [] [] [] [] [] [] []]; vm_compute; intuition congruence. Qed.

Lemma allDigits_app (a b : string) :
  allDigits (a ++ b) = allDigits a && allDigits b.
Proof.
  induction a as [|c a IH]; simpl; [reflexivity|].
  now rewrite IH, andb_assoc.
Qed.

Lemma allDigits_replicate (n : nat) : allDigits (replicate n "0") = true.
Proof. induction n as [|n IH]; simpl; [reflexivity | exact IH]. Qed.

Lemma allDigits_uint (d : Decimal.uint) :
  allDigits (NilEmpty.string_of_uint d) = true.
Proof. induction d; simpl; auto. Qed.

Lemma allDigits_drop (n : nat) (s : string) :
  allDigits s = true -> allDigits (drop n s) = true.
Proof.
  revert s. induction n as [|n IH]; intros [|c s] H; simpl; auto.
  simpl in H. apply andb_true_iff in H. now apply IH.
Qed.

Lemma toString_nat (z : Z) :
  0 <= z ->
  exists d, d <> Decimal.Nil /\ toString (Num z) = NilEmpty.string_of_uint d /\
            Z.of_uint d = z.
Proof.
  intros Hz. destruct z as [|p|p]; [| |lia].
  - exists (Decimal.D0 Decimal.Nil). repeat split. discriminate.
  - exists (Pos.to_uint p). split; [apply Unsigned.to_uint_nonnil|]. split.
    + simpl. pose proof (Unsigned.to_uint_nonnil p).
      destruct (Pos.to_uint p); try reflexivity. congruence.
    + unfold Z.of_uint. now rewrite Unsigned.of_to.
Qed.

Lemma allDigits_toString (z : Z) : 0 <= z -> allDigits (toString (Num z)) = true.
Proof.
  intros Hz. destruct (toString_nat z Hz) as (d & _ & -> & _).
  apply allDigits_uint.
Qed.

Lemma toString_nonempty (n : number) : 1 <= strlen (toString n).
Proof.
  unfold strlen. destruct n as [[|p|p]|]; simpl; try lia.
  destruct (Pos.to_uint p); simpl; lia.
Qed.

Lemma length_replicate (n : nat) (c : ascii) : String.length (replicate n c) = n.
Proof. induction n as [|n IH]; simpl; [reflexivity | now rewrite IH]. Qed.

Lemma strlen_padStart (s : string) (w : Z) (c : ascii) :
  strlen (padStart s w c) = Z.max w (strlen s).
Proof.
  unfold padStart. rewrite strlen_app. unfold strlen at 1.
  rewrite length_replicate. pose proof (strlen_nonneg s). lia.
Qed.

Lemma allDigits_padStart (z : Z) (w : Z) :
  0 <= z -> allDigits (padStart (toString (Num z)) w "0") = true.
Proof.
  intros Hz. unfold padStart.
  now rewrite allDigits_app, allDigits_replicate, allDigits_toString.
Qed.

Lemma digitPrefix_all (s : string) : allDigits s = true -> digitPrefix s = s.
Proof.
  induction s as [|c s IH]; simpl; [reflexivity|].
  intros H. apply andb_true_iff in H. destruct H as [Hc Hs].
  rewrite Hc. f_equal. now apply IH.
Qed.

(** On a non-empty digit string [parseInt] takes the whole string. *)
Lemma parseInt_digits (s : string) :
  test_digits s = true -> parseInt s = digitsValue s.
Proof.
  destruct s as [|c s]; [discriminate|].
  unfold test_digits. intros H.
  assert (Hc : isDigit c = true) by (simpl in H; now apply andb_true_iff in H).
  unfold parseInt. cbn [skipWhiteSpace].
  rewrite (isDigit_not_space c Hc).
  destruct (isDigit_not_sign c Hc) as [-> ->].
  now rewrite digitPrefix_all.
Qed.

Lemma uint_of_string_padded (n : nat) (d : Decimal.uint) :
  NilEmpty.uint_of_string (replicate n "0" ++ NilEmpty.string_of_uint d)
  = Some (Nat.iter n Decimal.D0 d).
Proof.
  induction n as [|n IH]; simpl.
  - apply NilEmpty.usu.
  - now rewrite IH.
Qed.

Lemma of_uint_leading_zeros (n : nat) (d : Decimal.uint) :
  Z.of_uint (Nat.iter n Decimal.D0 d) = Z.of_uint d.
Proof. induction n as [|n IH]; simpl; [reflexivity | exact IH]. Qed.

Lemma digitsValue_padded (n : nat) (z : Z) :
  0 <= z -> digitsValue (replicate n "0" ++ toString (Num z)) = Num z.
Proof.
  intros Hz. destruct (toString_nat z Hz) as (d & Hd & -> & Hv).
  unfold digitsValue, NilZero.uint_of_string.
  destruct (replicate n "0" ++ NilEmpty.string_of_uint d) eqn:E.
  - exfalso. destruct n; [|discriminate]. destruct d; simpl in E; congruence.
  - rewrite <- E, uint_of_string_padded, of_uint_leading_zeros. now rewrite Hv.
Qed.

(** Zero padding does not change the value read back by [parseInt]. *)
Lemma parseInt_padStart (z w : Z) :
  0 <= z -> parseInt (padStart (toString (Num z)) w "0") = Num z.
Proof.
  intros Hz. rewrite parseInt_digits.
  - now apply digitsValue_padded.
  - pose proof (allDigits_padStart z w Hz) as Ha.
    pose proof (strlen_padStart (toString (Num z)) w "0") as Hl.
    pose proof (toString_nonempty (Num z)).
    destruct (padStart (toString (Num z)) w "0"); [|exact Ha].
    change (strlen "") with 0 in Hl. lia.
Qed.

End NumberFacts.

(** ** Facts about [generateFromSequence] *)

Module GeneratorFacts.
Import StringFacts NumberFacts.

(** One step of the method body. *)
Lemma generateFromSequence_unfold (now : Clock) (sequence : number)
  (dateKey : option string) (this : SequentialGenerator) :
  generateFromSequence now sequence dateKey this =
  if overflows sequence this then
    generateFromSequence now (Num 1)
      (Some (truthyOr dateKey (getDateKey now this)))
      (set_sequentialLength (sequentialLength this + 1) this)
  else
    (compose this (truthyOr dateKey (getDateKey now this))
       (sequenceString_of sequence this), this).
Proof.
  funelim (generateFromSequence now sequence dateKey this); now rewrite e.
Qed.

Lemma overflows_iff (sequence : number) (this : SequentialGenerator) :
  overflows sequence this = true <->
  sequentialLength this < strlen (toString sequence).
Proof.
  unfold overflows, sequenceString_of. rewrite strlen_padStart, Z.gtb_lt. lia.
Qed.

Lemma overflows_false_iff (sequence : number) (this : SequentialGenerator) :
  overflows sequence this = false <->
  strlen (toString sequence) <= sequentialLength this.
Proof.
  destruct (overflows sequence this) eqn:E.
  - apply overflows_iff in E. split; [discriminate | lia].
  - split; [|reflexivity]. intros _.
    destruct (Z_lt_le_dec (sequentialLength this) (strlen (toString sequence)))
      as [Hlt|Hle]; [|exact Hle].
    apply overflows_iff in Hlt. congruence.
Qed.

(** A sequence that fits the width is rendered without touching the
    instance. *)
Lemma generateFromSequence_fits (now : Clock) (sequence : number)
  (dateKey : option string) (this : SequentialGenerator) :
  strlen (toString sequence) <= sequentialLength this ->
  generateFromSequence now sequence dateKey this =
  (compose this (truthyOr dateKey (getDateKey now this))
     (sequenceString_of sequence this), this).
Proof.
  intros H. apply overflows_false_iff in H.
  now rewrite generateFromSequence_unfold, H.
Qed.

(** The runtime fields are a frame of [generateFromSequence]: they are
    carried through unchanged and the result does not depend on them. *)
Lemma generateFromSequence_set_runtime (now : Clock) (sequence : number)
  (dateKey : option string) (this : SequentialGenerator)
  (d : option string) (n : number) :
  generateFromSequence now sequence dateKey (set_runtime d n this) =
  (fst (generateFromSequence now sequence dateKey this),
   set_runtime d n (snd (generateFromSequence now sequence dateKey this))).
Proof.
  revert d n.
  funelim (generateFromSequence now sequence dateKey this); intros d n.
  - rewrite generateFromSequence_unfold.
    change (overflows sequence (set_runtime d n this)) with (overflows sequence this).
    rewrite e. apply H.
  - rewrite generateFromSequence_unfold.
    change (overflows sequence (set_runtime d n this)) with (overflows sequence this).
    now rewrite e.
Qed.

Lemma generateFromSequence_runtime (now : Clock) (sequence : number)
  (dateKey : option string) (this : SequentialGenerator) :
  lastGeneratedDate (snd (generateFromSequence now sequence dateKey this))
  = lastGeneratedDate this /\
  currentSequence (snd (generateFromSequence now sequence dateKey this))
  = currentSequence this.
Proof.
  funelim (generateFromSequence now sequence dateKey this).
  - exact H.
  - split; reflexivity.
Qed.

(** The configuration strings are never written. *)
Lemma generateFromSequence_config (now : Clock) (sequence : number)
  (dateKey : option string) (this : SequentialGenerator) :
  let this' := snd (generateFromSequence now sequence dateKey this) in
  prefix this' = prefix this /\ separator this' = separator this /\
  dateFormat this' = dateFormat this /\ timeZone this' = timeZone this.
Proof.
  funelim (generateFromSequence now sequence dateKey this).
  - exact H.
  - repeat split; reflexivity.
Qed.

(** The width only grows. *)
Lemma generateFromSequence_width (now : Clock) (sequence : number)
  (dateKey : option string) (this : SequentialGenerator) :
  sequentialLength this
  <= sequentialLength (snd (generateFromSequence now sequence dateKey this)).
Proof.
  funelim (generateFromSequence now sequence dateKey this).
  - cbn [sequentialLength set_sequentialLength] in H. lia.
  - cbn [snd]. lia.
Qed.

Lemma generate_runtime (now : Clock) (this : SequentialGenerator) :
  lastGeneratedDate (snd (generate now this)) = Some (getDateKey now this) /\
  currentSequence (snd (generate now this)) =
  match lastGeneratedDate this with
  | Some last => if String.eqb (getDateKey now this) last
                 then plus1 (currentSequence this) else Num 1
  | None => Num 1
  end.
Proof.
  unfold generate.
  match goal with
  | |- context [if ?c then _ else _] => destruct c
  end.
  - match goal with
    | |- context [generateFromSequence ?a ?b ?c ?d] =>
        destruct (generateFromSequence_runtime a b c d) as [-> ->]
    end.
    split; reflexivity.
  - split; reflexivity.
Qed.

Lemma generate_width (now : Clock) (this : SequentialGenerator) :
  sequentialLength this <= sequentialLength (snd (generate now this)).
Proof.
  unfold generate.
  match goal with
  | |- context [if ?c then _ else _] => destruct c
  end.
  - etransitivity; [|apply generateFromSequence_width].
    cbn [sequentialLength set_sequentialLength set_runtime]. lia.
  - cbn [snd sequentialLength set_runtime]. lia.
Qed.

(** The two outcomes of [increment]. *)
Lemma increment_invalid (now : Clock) (this : SequentialGenerator) (lastCode : string) :
  validate now this lastCode = false ->
  increment now this lastCode
  = (Throw "Invalid code format provided to increment", this).
Proof. intros H. unfold increment. now rewrite H. Qed.

Lemma increment_valid (now : Clock) (this : SequentialGenerator) (lastCode : string) :
  validate now this lastCode = true ->
  exists code this', increment now this lastCode = (Return code, this') /\
                     sequentialLength this <= sequentialLength this'.
Proof.
  intros H. unfold increment. rewrite H. cbn [negb].
  match goal with
  | |- context [let '(_, _) := ?p in _] => destruct p as [nextSequence this1] eqn:E1
  end.
  assert (Hw : sequentialLength this <= sequentialLength this1).
  { destruct (String.eqb _ _); [|injection E1 as _ <-; lia].
    injection E1 as _ <-.
    match goal with
    | |- context [if ?c then _ else _] => destruct c eqn:Ec
    end; [|lia].
    apply Z.gtb_lt in Ec. cbn [sequentialLength set_sequentialLength]. lia. }
  pose proof (generateFromSequence_width now nextSequence
                (Some (getDateKey now this)) this1) as Hg.
  destruct (generateFromSequence now nextSequence (Some (getDateKey now this)) this1)
    as [code this2].
  exists code, this2. split; [reflexivity|]. cbn [snd] in Hg. lia.
Qed.

Lemma parse_invalid (now : Clock) (this : SequentialGenerator) (code : string) :
  validate now this code = false ->
  parse now this code = (Throw "Invalid code format provided to parse", this).
Proof. intros H. unfold parse. now rewrite H. Qed.

Lemma parse_valid (now : Clock) (this : SequentialGenerator) (code : string) :
  validate now this code = true ->
  parse now this code
  = (Return (mkParsed (prefix this) (extractDate now this code)
               (extractSequence now this code)), this).
Proof. intros H. unfold parse. now rewrite H. Qed.

End GeneratorFacts.

(** ** Facts about segment recovery *)

Module SegmentFacts.
Import StringFacts LastIndexFacts NumberFacts GeneratorFacts.

(** A separator that does not end in a digit ends in some other character. *)
Lemma last_character (s : string) :
  s <> "" -> endsWithDigit s = false ->
  exists c, drop (String.length s - 1) s = String c "" /\ isDigit c = false.
Proof.
  induction s as [|c s IH]; intros Hne He; [congruence|].
  destruct s as [|c' s].
  - exists c. split; [reflexivity | exact He].
  - destruct IH as (x & Hx & Hd); [discriminate | exact He |].
    exists x. split; [|exact Hd].
    replace (String.length (String c (String c' s)) - 1)%nat
      with (S (String.length (String c' s) - 1)) by (cbn [String.length]; lia).
    exact Hx.
Qed.

(** In [head ++ separator ++ digits] the last occurrence of the separator is
    the one written, provided the separator does not end in a digit. *)
Lemma lastIndexOf_before_digits (head sep digits : string) :
  sep <> "" -> endsWithDigit sep = false -> allDigits digits = true ->
  lastIndexOf (head ++ sep ++ digits) sep = strlen head.
Proof.
  intros Hne He Hd. unfold strlen. apply lastIndexOf_unique.
  - apply occursAt_split. now exists head, digits.
  - intros k' [Hk' Hp].
    destruct (Nat.le_gt_cases k' (String.length head)) as [|Hgt]; [assumption|].
    exfalso.
    rewrite drop_app_ge in Hp by lia.
    set (j := (k' - String.length head)%nat) in *.
    apply prefix_inv in Hp.
    destruct (last_character sep Hne He) as (c & Hc & Hnd).
    assert (Hlen : (1 <= String.length sep)%nat)
      by (destruct sep; [congruence | simpl; lia]).
    apply (f_equal (drop (String.length sep - 1))) in Hp.
    rewrite drop_drop in Hp.
    rewrite (drop_app_ge sep digits) in Hp by lia.
    rewrite (drop_app_le sep) in Hp by lia.
    rewrite Hc in Hp.
    apply (f_equal allDigits) in Hp.
    rewrite allDigits_drop in Hp by assumption.
    cbn [append allDigits] in Hp. rewrite Hnd in Hp. discriminate.
Qed.

Lemma compose_assoc (this : SequentialGenerator) (key digits : string) :
  compose this key digits
  = (prefix this ++ separator this ++ key) ++ separator this ++ digits.
Proof. unfold compose. now rewrite !app_assoc. Qed.

(** The sequence segment of a composed code is the digit string that was
    written into it. *)
Lemma sequenceSegment_compose (now : Clock) (this : SequentialGenerator)
  (digits : string) :
  endsWithDigit (separator this) = false -> allDigits digits = true ->
  sequenceSegment now this (compose this (getDateKey now this) digits) = digits.
Proof.
  intros He Hd. unfold sequenceSegment, sequenceStartIndex. cbv zeta.
  destruct (truthy (separator this)) eqn:Ht.
  - rewrite compose_assoc.
    rewrite lastIndexOf_before_digits; [| now apply truthy_true | assumption..].
    pose proof (strlen_nonneg (prefix this ++ separator this ++ getDateKey now this)).
    destruct (Z.eqb_spec
                (strlen (prefix this ++ separator this ++ getDateKey now this)) (-1));
      [lia|].
    rewrite <- strlen_app, <- app_assoc. apply substring_app_from.
  - apply truthy_false in Ht. unfold compose, getDateFormatLength, getDateKey.
    rewrite Ht. cbn [append]. change (strlen "") with 0.
    rewrite !Z.add_0_r, <- strlen_app, <- app_assoc. apply substring_app_from.
Qed.

(** The date segment of a composed code is the date key written into it. *)
Lemma extractDate_compose (now : Clock) (this : SequentialGenerator)
  (digits : string) :
  endsWithDigit (separator this) = false -> allDigits digits = true ->
  extractDate now this (compose this (getDateKey now this) digits)
  = getDateKey now this.
Proof.
  intros He Hd. unfold extractDate.
  set (key := getDateKey now this).
  assert (Hshape : compose this key digits
                   = (prefix this ++ separator this) ++ key
                     ++ (separator this ++ digits)).
  { unfold compose. now rewrite !app_assoc. }
  assert (Hfallback :
            substring (compose this key digits)
              (strlen (prefix this) + strlen (separator this))
              (Some (strlen (prefix this) + strlen (separator this)
                     + getDateFormatLength now this)) = key).
  { rewrite Hshape, <- strlen_app. apply substring_app_range. }
  cbv zeta.
  destruct (truthy (separator this)) eqn:Ht; [|exact Hfallback].
  assert (Hidx : lastIndexOf (compose this key digits) (separator this)
                 = strlen (prefix this ++ separator this ++ key)).
  { rewrite compose_assoc.
    apply lastIndexOf_before_digits; [now apply truthy_true | assumption..]. }
  rewrite Hidx.
  destruct (_ >? _) eqn:Hgt; [|exact Hfallback].
  rewrite Hshape.
  replace (strlen (prefix this ++ separator this ++ key))
    with (strlen (prefix this ++ separator this) + strlen key)
    by (rewrite !strlen_app; lia).
  rewrite <- strlen_app. apply substring_app_range.
Qed.

(** What [validate] checks, with the sequence segment named. *)
Lemma validate_iff (now : Clock) (this : SequentialGenerator) (code : string) :
  validate now this code = true <->
  startsWith code (prefix this) = true /\
  strlen (prefix this) + strlen (separator this) * 2
  + getDateFormatLength now this + 1 <= strlen code /\
  (truthy (separator this) = true -> lastIndexOf code (separator this) <> -1) /\
  test_digits (sequenceSegment now this code) = true.
Proof.
  unfold validate, sequenceSegment, sequenceStartIndex.
  destruct (startsWith code (prefix this)); cbn [negb];
    [|split; [discriminate | intros [H _]; discriminate]].
  destruct (Z.ltb_spec (strlen code)
              (strlen (prefix this) + strlen (separator this) * 2
               + getDateFormatLength now this + 1)) as [Hlt|Hge];
    [split; [discriminate | intros (_ & H & _); lia]|].
  destruct (truthy (separator this)).
  - destruct (Z.eqb_spec (lastIndexOf code (separator this)) (-1)) as [E|E].
    + split; [discriminate|]. intros (_ & _ & H & _). now destruct H.
    + split; [intros H; repeat split; auto | intros (_ & _ & _ & H); exact H].
  - split; [intros H; repeat split; auto; discriminate
           | intros (_ & _ & _ & H); exact H].
Qed.

(** The extent of the sequence segment of a valid code. *)
Lemma sequenceStartIndex_valid (now : Clock) (this : SequentialGenerator)
  (code : string) :
  validate now this code = true ->
  0 <= sequenceStartIndex now this code <= strlen code /\
  sequenceStartIndex now this code =
  if truthy (separator this)
  then lastIndexOf code (separator this) + strlen (separator this)
  else strlen (prefix this) + getDateFormatLength now this.
Proof.
  intros Hv. apply validate_iff in Hv. destruct Hv as (_ & Hlen & Hsep & _).
  unfold sequenceStartIndex.
  pose proof (strlen_nonneg (prefix this)).
  pose proof (strlen_nonneg (separator this)).
  assert (0 <= getDateFormatLength now this) by apply strlen_nonneg.
  destruct (truthy (separator this)) eqn:Ht.
  - specialize (Hsep eq_refl).
    destruct (lastIndexOf_bounds _ _ Hsep).
    destruct (Z.eqb_spec (lastIndexOf code (separator this)) (-1)); [congruence|].
    split; [lia | reflexivity].
  - apply truthy_false in Ht. rewrite Ht in *. change (strlen "") with 0 in *.
    split; lia.
Qed.

(** The segment parsed from a valid code has the shape [validate] relies on. *)
Lemma sequenceSegment_is_segment (now : Clock) (this : SequentialGenerator)
  (code : string) :
  validate now this code = true ->
  isSequenceSegment now this code (sequenceSegment now this code).
Proof.
  intros Hv. destruct (sequenceStartIndex_valid now this code Hv) as [Hrange Hstart].
  apply validate_iff in Hv. destruct Hv as (_ & _ & Hsep & _).
  unfold isSequenceSegment, sequenceSegment. rewrite Hstart.
  destruct (truthy (separator this)) eqn:Ht.
  - specialize (Hsep eq_refl).
    destruct (lastIndexOf_spec (separator this) code)
      as [[E _] | (k & Hk & Hocc & Hmax)]; [congruence|].
    destruct (proj1 (occursAt_split _ _ _) Hocc) as (a & b & Hcode & Ha).
    exists a. rewrite Hk. subst k. split.
    + replace (substring code _ None) with b; [exact Hcode|].
      rewrite Hcode. fold (strlen a). rewrite <- strlen_app, <- app_assoc.
      symmetry. apply substring_app_from.
    + intros head' rest' H'. apply Hmax. apply occursAt_split.
      now exists head', rest'.
  - rewrite Hstart in Hrange.
    set (start := strlen (prefix this) + getDateFormatLength now this) in *.
    exists (take (Z.to_nat start) code). split.
    + rewrite substring_from by exact Hrange. symmetry. apply take_drop.
    + unfold strlen in *. rewrite length_take by lia. lia.
Qed.

(** That shape determines the segment. *)
Lemma isSequenceSegment_unique (now : Clock) (this : SequentialGenerator)
  (code segment : string) :
  isSequenceSegment now this code segment ->
  (truthy (separator this) = true -> lastIndexOf code (separator this) <> -1) /\
  segment = sequenceSegment now this code.
Proof.
  unfold isSequenceSegment, sequenceSegment, sequenceStartIndex. cbv zeta.
  destruct (truthy (separator this)) eqn:Ht.
  - intros (head & Hcode & Hmax).
    assert (Hidx : lastIndexOf code (separator this) = strlen head).
    { apply lastIndexOf_unique.
      - apply occursAt_split. now exists head, segment.
      - intros k' Hk'. apply occursAt_split in Hk'.
        destruct Hk' as (a & b & Hab & <-). now apply (Hmax a b). }
    pose proof (strlen_nonneg head).
    rewrite Hidx. split; [intros _; lia|].
    destruct (Z.eqb_spec (strlen head) (-1)); [lia|].
    rewrite Hcode. rewrite <- strlen_app, <- app_assoc.
    symmetry. apply substring_app_from.
  - intros (head & Hcode & Hlen). split; [discriminate|].
    apply truthy_false in Ht. rewrite Ht. change (strlen "") with 0.
    rewrite !Z.add_0_r, <- Hlen. rewrite Hcode.
    symmetry. apply substring_app_from.
Qed.

End SegmentFacts.

(** ** Properties of the class *)

Import ListNotations.
Import StringFacts LastIndexFacts NumberFacts GeneratorFacts.

Example substring_swaps : substring "abcdef" 4 (Some 1) = "bcd".
Proof. reflexivity. Qed.

Example lastIndexOf_found : lastIndexOf "INV-20230101-0001" "-" = 12.
Proof. reflexivity. Qed.

Example lastIndexOf_missing : lastIndexOf "INV202301010001" "-" = -1.
Proof. reflexivity. Qed.

Example parseInt_samples :
  parseInt "00042" = Num 42 /\ parseInt "" = NaN /\ parseInt " -12ab" = Num (-12).
Proof. repeat split. Qed.

Example generate_first_code :
  fst (generate jan1 invoiceGenerator) = "INV-20230101-0001".
Proof. reflexivity. Qed.

(** *** Overflow in [generate] *)

(** When the padded sequence is longer than the width, [generate] hands the
    literal [1] to [generateFromSequence], whatever the sequence stored. *)
Lemma generate_overflow_renders_one (now : Clock) (this : SequentialGenerator) :
  let this1 := snd (generate now this) in
  sequentialLength this < strlen (toString (currentSequence this1)) ->
  generate now this =
  generateFromSequence now (Num 1) (Some (getDateKey now this))
    (set_sequentialLength (sequentialLength this + 1)
       (set_runtime (Some (getDateKey now this)) (currentSequence this1) this)).
Proof.
  intros this1 H. subst this1.
  destruct (generate_runtime now this) as [_ Hseq]. rewrite Hseq in *. clear Hseq.
  unfold generate, getDateKey in *.
  match goal with
  | |- context [set_runtime _ ?q this] => set (s := q) in *
  end.
  fold (overflows s (set_runtime (Some (now (timeZone this) (dateFormat this))) s this)).
  assert (Ho : overflows s (set_runtime (Some (now (timeZone this) (dateFormat this))) s this)
               = true) by (apply overflows_iff; exact H).
  now rewrite Ho.
Qed.

(** C1 (as the code behaves): with width 1 and an unchanging date key the
    first nine [generate()] calls yield the sequences 1 to 9; the tenth call
    grows the width to 2 but returns a code whose sequence segment reads 1,
    while the stored sequence is 10. *)
Theorem generate_tenth_call_restarts_at_one :
  let '(codes, this9) := generate_times 9 jan1 oneDigitGenerator in
  let '(code10, this10) := generate jan1 this9 in
  codes = ["202301011"; "202301012"; "202301013"; "202301014"; "202301015";
           "202301016"; "202301017"; "202301018"; "202301019"] /\
  sequentialLength this9 = 1 /\
  code10 = "2023010101" /\
  sequenceSegment jan1 this10 code10 = "01" /\
  extractSequence jan1 this10 code10 = Num 1 /\
  currentSequence this10 = Num 10 /\
  sequentialLength this10 = 2.
Proof. vm_compute. repeat split. Qed.

(** C2 (as the code behaves): after the tenth call above, the code that
    [generate()] returned differs from the one that
    [generateFromSequence(currentSequence, lastGeneratedDate)] returns on
    the same instance. *)
Theorem generate_overflow_not_reproducible :
  let this9 := snd (generate_times 9 jan1 oneDigitGenerator) in
  let '(code10, this10) := generate jan1 this9 in
  code10 = "2023010101" /\
  fst (generateFromSequence jan1 (currentSequence this10)
         (lastGeneratedDate this10) this10) = "2023010110".
Proof. vm_compute. split; reflexivity. Qed.

(** Outside the overflow case the returned code is reproducible from the
    stored state. *)
Lemma generate_reproducible_when_fits (now : Clock) (this : SequentialGenerator) :
  let this' := snd (generate now this) in
  strlen (toString (currentSequence this')) <= sequentialLength this ->
  generateFromSequence now (currentSequence this') (lastGeneratedDate this') this'
  = generate now this.
Proof.
  intros this' H. subst this'.
  destruct (generate_runtime now this) as [Hd Hs].
  rewrite Hs in H. rewrite Hd, Hs. clear Hd Hs.
  unfold generate, getDateKey in *.
  match goal with
  | |- context [set_runtime _ ?q this] => set (s := q) in *
  end.
  set (key := now (timeZone this) (dateFormat this)).
  fold (overflows s (set_runtime (Some key) s this)).
  assert (Ho : overflows s (set_runtime (Some key) s this) = false)
    by (apply overflows_false_iff; exact H).
  rewrite Ho. cbn [snd].
  rewrite generateFromSequence_fits by exact H.
  unfold compose, truthyOr, getDateKey. cbn [timeZone dateFormat set_runtime].
  fold key. now destruct (truthy key).
Qed.

(** *** The sequence issued by [generate] *)

(** C3: [generate()] stores the previous sequence plus one when the fresh
    date key equals the stored one, and 1 otherwise (first call, or the
    formatted key changed); the fresh key becomes the stored one. *)
Theorem generate_issues_sequence (now : Clock) (this : SequentialGenerator) :
  let key := getDateKey now this in
  let this' := snd (generate now this) in
  (lastGeneratedDate this = Some key ->
   currentSequence this' = plus1 (currentSequence this)) /\
  (lastGeneratedDate this <> Some key -> currentSequence this' = Num 1) /\
  lastGeneratedDate this' = Some key.
Proof.
  intros key this'. subst key this'.
  destruct (generate_runtime now this) as [Hd Hs]. rewrite Hd, Hs.
  split; [|split; [|reflexivity]].
  - intros ->. now rewrite String.eqb_refl.
  - intros Hne. destruct (lastGeneratedDate this) as [last|]; [|reflexivity].
    destruct (String.eqb_spec (getDateKey now this) last) as [E|E]; congruence.
Qed.

Lemma generate_issues_sequence_witness :
  currentSequence
    (snd (generate jan1
            (set_runtime (Some "20230101") (Num 7) invoiceGenerator))) = Num 8 /\
  currentSequence
    (snd (generate jan1
            (set_runtime (Some "20221231") (Num 7) invoiceGenerator))) = Num 1 /\
  currentSequence (snd (generate jan1 invoiceGenerator)) = Num 1.
Proof.
  split; [|split].
  - apply (proj1 (generate_issues_sequence jan1
                    (set_runtime (Some "20230101") (Num 7) invoiceGenerator))).
    reflexivity.
  - apply (proj1 (proj2 (generate_issues_sequence jan1
                    (set_runtime (Some "20221231") (Num 7) invoiceGenerator)))).
    discriminate.
  - apply (proj1 (proj2 (generate_issues_sequence jan1 invoiceGenerator))).
    discriminate.
Defined.

(** *** Failure of [increment] and [parse] *)

(** C7: [increment(code)] throws its format error exactly when
    [validate(code)] is false, it returns a code otherwise, and a throwing
    [increment] or [parse] leaves the whole instance, hence the stored date,
    the stored sequence and the width, as it was. *)
Theorem increment_throws_iff_invalid (now : Clock) (this : SequentialGenerator)
  (code : string) :
  ((exists message, fst (increment now this code) = Throw message) <->
   validate now this code = false) /\
  (validate now this code = false ->
   fst (increment now this code) = Throw "Invalid code format provided to increment") /\
  (forall message, fst (increment now this code) = Throw message ->
                   snd (increment now this code) = this) /\
  (forall message, fst (parse now this code) = Throw message ->
                   snd (parse now this code) = this).
Proof.
  destruct (validate now this code) eqn:Hv.
  - destruct (increment_valid now this code Hv) as (next & this' & Hi & _).
    rewrite Hi, (parse_valid now this code Hv). cbn [fst snd].
    repeat split; try discriminate.
    intros [message H]. discriminate.
  - rewrite (increment_invalid now this code Hv), (parse_invalid now this code Hv).
    cbn [fst snd]. repeat split; eauto.
Qed.

Lemma increment_throws_iff_invalid_witness :
  fst (increment jan1 invoiceGenerator "INVALID")
  = Throw "Invalid code format provided to increment" /\
  snd (increment jan1 invoiceGenerator "INVALID") = invoiceGenerator /\
  snd (parse jan1 invoiceGenerator "INVALID") = invoiceGenerator.
Proof.
  pose proof (increment_throws_iff_invalid jan1 invoiceGenerator "INVALID")
    as (_ & Hmsg & Hinc & Hparse).
  split; [|split].
  - apply Hmsg. reflexivity.
  - apply (Hinc "Invalid code format provided to increment"). apply Hmsg. reflexivity.
  - apply (Hparse "Invalid code format provided to parse"). reflexivity.
Defined.

(** *** The frame of [generateFromSequence] *)

(** C8: for every sequence and optional date key, [generateFromSequence]
    returns the same code whatever [lastGeneratedDate] and
    [currentSequence] hold, and leaves both fields as they were. *)
Theorem generateFromSequence_ignores_runtime (now : Clock) (sequence : number)
  (dateKey : option string) (this : SequentialGenerator)
  (d : option string) (n : number) :
  let result := generateFromSequence now sequence dateKey this in
  fst (generateFromSequence now sequence dateKey (set_runtime d n this)) = fst result /\
  snd (generateFromSequence now sequence dateKey (set_runtime d n this))
  = set_runtime d n (snd result) /\
  lastGeneratedDate (snd result) = lastGeneratedDate this /\
  currentSequence (snd result) = currentSequence this.
Proof.
  intros result. subst result.
  rewrite generateFromSequence_set_runtime. cbn [fst snd].
  destruct (generateFromSequence_runtime now sequence dateKey this) as [Hd Hs].
  repeat split; assumption.
Qed.

(** *** The width as a ratchet *)

Lemma stateAfter_width (now : Clock) (c : call) (this : SequentialGenerator) :
  sequentialLength this <= sequentialLength (stateAfter now c this).
Proof.
  destruct c; cbn [stateAfter reset set_runtime sequentialLength]; try lia.
  - apply generate_width.
  - apply generateFromSequence_width.
  - destruct (validate now this lastCode) eqn:Hv.
    + destruct (increment_valid now this lastCode Hv) as (next & this' & Hi & Hw).
      now rewrite Hi.
    + rewrite (increment_invalid now this lastCode Hv). cbn [snd]. lia.
  - unfold parse. destruct (validate now this code); cbn [negb snd]; lia.
Qed.

(** C9: no public operation, and no sequence of public operations, lowers
    [sequentialLength]; [reset()] puts [lastGeneratedDate] and
    [currentSequence] back to the values a new instance has and keeps the
    width. *)
Theorem sequentialLength_never_decreases :
  (forall now c this,
      sequentialLength this <= sequentialLength (stateAfter now c this)) /\
  (forall trace this, sequentialLength this <= sequentialLength (run trace this)) /\
  (forall config this,
      lastGeneratedDate (reset this) = lastGeneratedDate (constructor config) /\
      currentSequence (reset this) = currentSequence (constructor config) /\
      sequentialLength (reset this) = sequentialLength this).
Proof.
  split; [exact stateAfter_width|]. split.
  - induction trace as [|[now c] rest IH]; intros this; cbn [run]; [lia|].
    etransitivity; [apply (stateAfter_width now c)|apply IH].
  - intros config this. repeat split.
Qed.

Example reset_keeps_grown_width :
  let this10 := snd (generate_times 10 jan1 oneDigitGenerator) in
  sequentialLength this10 = 2 /\
  reset this10 = set_sequentialLength 2 oneDigitGenerator.
Proof. vm_compute. split; reflexivity. Qed.

(** *** The constructor *)

(** C10: an empty [timeZone] is replaced by ["UTC"] exactly as an absent
    one is, whereas [prefix], [dateFormat] and [separator] keep any supplied
    string, the empty one included; a generator built with an empty
    [timeZone] therefore renders its date keys in UTC. *)
Theorem constructor_empty_timeZone_is_UTC
  (p f s : option string) (w : option Z) (now : Clock) :
  constructor (Config.make p f w (Some "") s) = constructor (Config.make p f w None s) /\
  timeZone (constructor (Config.make p f w (Some "") s)) = "UTC" /\
  (forall tz x, prefix (constructor (Config.make (Some x) f w tz s)) = x) /\
  (forall tz x, dateFormat (constructor (Config.make p (Some x) w tz s)) = x) /\
  (forall tz x, separator (constructor (Config.make p f w tz (Some x))) = x) /\
  getDateKey now (constructor (Config.make p f w (Some "") s))
  = now "UTC" (definedOr f "YYYYMMDD").
Proof. repeat split. Qed.

Example constructor_defaults :
  constructor Config.empty = mkGenerator "" "YYYYMMDD" 4 "UTC" "" None (Num 0).
Proof. reflexivity. Qed.

Example constructor_keeps_empty_strings :
  constructor (Config.make (Some "") (Some "") None (Some "") (Some ""))
  = mkGenerator "" "" 4 "UTC" "" None (Num 0).
Proof. reflexivity. Qed.

(** *** Generation followed by extraction *)

Import SegmentFacts.

(** C4 (as stated) fails: with the separator ["0"] the last separator
    occurrence found in the code of sequence 10 lies inside the padded
    sequence, and [extractSequence] reads nothing. *)
Lemma round_trip_fails_with_digit_separator :
  ~ (forall now this n,
        1 <= sequentialLength this -> 1 <= n -> roundTrips now this n).
Proof.
  intros H.
  assert (R := H jan1 (constructor (Config.make None None None None (Some "0"))) 10
                 ltac:(cbn; lia) ltac:(lia)).
  vm_compute in R. destruct R as [R _]. discriminate R.
Qed.

(** C4 (amended): when the separator is empty or ends in a character that
    is not a digit, every safe integer sequence [n >= 1] whose decimal form
    fits the width is read back by [extractSequence] from the generated
    code, and [extractDate] gives the date key. *)
Theorem generateFromSequence_round_trip (now : Clock) (this : SequentialGenerator)
  (n : Z) :
  1 <= n ->
  n <= MAX_SAFE_INTEGER ->
  strlen (toString (Num n)) <= sequentialLength this ->
  endsWithDigit (separator this) = false ->
  roundTrips now this n.
Proof.
  intros Hn Hsafe Hfit He. unfold roundTrips.
  rewrite generateFromSequence_fits by exact Hfit.
  cbn [truthyOr]. unfold sequenceString_of.
  assert (Hd : allDigits (padStart (toString (Num n)) (sequentialLength this) "0")
               = true) by (apply allDigits_padStart; lia).
  split.
  - unfold extractSequence. rewrite sequenceSegment_compose by assumption.
    apply parseInt_padStart. lia.
  - now apply extractDate_compose.
Qed.

Lemma generateFromSequence_round_trip_witness :
  roundTrips jan1 invoiceGenerator 42.
Proof.
  apply generateFromSequence_round_trip.
  - lia.
  - apply Z.leb_le. reflexivity.
  - apply Z.leb_le. reflexivity.
  - reflexivity.
Defined.

Example round_trip_code :
  generateFromSequence jan1 (Num 42) None invoiceGenerator
  = ("INV-20230101-0042", invoiceGenerator).
Proof. reflexivity. Qed.

(** A sequence wider than the width comes back as 1: the restart of the
    overflow branch. *)
Example round_trip_beyond_width :
  let '(code, this') := generateFromSequence jan1 (Num 10000) None invoiceGenerator in
  code = "INV-20230101-00001" /\ extractSequence jan1 this' code = Num 1.
Proof. split; reflexivity. Qed.

(** *** Width adoption in [increment] *)

(** C5 (as the code behaves): with prefix ["INV"], separator ["-"] and
    width 4, incrementing ["INV-20230101-00001"] on the same date key
    returns ["INV-20230101-00002"] and leaves the width at 5; but
    incrementing the valid same-day code ["INV-20230101-99999"] raises the
    width to 6 and returns the code of sequence 1, not the next code
    ["INV-20230101-100000"]. *)
Theorem increment_all_nines_restarts_at_one :
  increment jan1 invoiceGenerator "INV-20230101-00001"
  = (Return "INV-20230101-00002", set_sequentialLength 5 invoiceGenerator) /\
  validate jan1 invoiceGenerator "INV-20230101-99999" = true /\
  extractDate jan1 invoiceGenerator "INV-20230101-99999"
  = getDateKey jan1 invoiceGenerator /\
  extractSequence jan1 invoiceGenerator "INV-20230101-99999" = Num 99999 /\
  sequentialLength invoiceGenerator
  < strlen (sequenceSegment jan1 invoiceGenerator "INV-20230101-99999") /\
  increment jan1 invoiceGenerator "INV-20230101-99999"
  = (Return "INV-20230101-000001", set_sequentialLength 6 invoiceGenerator).
Proof. repeat split. Qed.

(** Hence the width is not always the embedded one after [increment]. *)
Lemma increment_all_nines_outgrows_embedded_width :
  ~ (forall now this code,
        validate now this code = true ->
        extractDate now this code = getDateKey now this ->
        sequentialLength this < strlen (sequenceSegment now this code) ->
        incrementPreservesWidth now this code).
Proof.
  intros H.
  assert (R := H jan1 invoiceGenerator "INV-20230101-99999"
                 eq_refl eq_refl ltac:(apply Z.ltb_lt; reflexivity)).
  vm_compute in R. discriminate R.
Qed.

Example increment_all_nines :
  increment jan1 invoiceGenerator "INV-20230101-99999"
  = (Return "INV-20230101-000001", set_sequentialLength 6 invoiceGenerator).
Proof. reflexivity. Qed.

(** Where the next sequence value is a safe integer that still fits the
    embedded segment, the width is adopted and kept: for a valid code that
    carries the current date key and the sequence [n], whose segment is
    longer than the configured width, [increment] sets the width to the
    segment's length and returns [n + 1] padded to it. *)
Lemma increment_adopts_embedded_width (now : Clock) (this : SequentialGenerator)
  (code : string) (n : Z) :
  validate now this code = true ->
  extractDate now this code = getDateKey now this ->
  extractSequence now this code = Num n ->
  n + 1 <= MAX_SAFE_INTEGER ->
  sequentialLength this < strlen (sequenceSegment now this code) ->
  strlen (toString (Num (n + 1))) <= strlen (sequenceSegment now this code) ->
  incrementPreservesWidth now this code.
Proof.
  intros Hv Hd Hseq Hsafe Hw Hfit'.
  assert (Hfit : strlen (toString (plus1 (extractSequence now this code)))
                 <= strlen (sequenceSegment now this code))
    by (rewrite Hseq; exact Hfit').
  clear Hseq Hsafe Hfit'.
  unfold incrementPreservesWidth. cbv zeta.
  destruct (sequenceStartIndex_valid now this code Hv) as [Hrange Hstart].
  assert (Hlen : strlen (sequenceSegment now this code)
                 = strlen code - sequenceStartIndex now this code)
    by (apply strlen_substring_from; exact Hrange).
  set (width := strlen (sequenceSegment now this code)) in *.
  set (next := plus1 (extractSequence now this code)) in *.
  assert (HL : (if truthy (separator this)
                then strlen code
                     - (lastIndexOf code (separator this) + strlen (separator this))
                else strlen code
                     - (strlen (prefix this) + getDateFormatLength now this))
               = width).
  { rewrite Hlen, Hstart. now destruct (truthy (separator this)). }
  unfold increment. rewrite Hv. cbn [negb]. cbv zeta.
  rewrite Hd, String.eqb_refl, HL.
  destruct (Z.gtb_spec width (sequentialLength this)) as [_|Hle]; [|lia].
  fold next.
  rewrite generateFromSequence_fits by (cbn [sequentialLength set_sequentialLength]; exact Hfit).
  unfold compose, sequenceString_of, truthyOr, getDateKey.
  cbn [prefix separator timeZone dateFormat sequentialLength set_sequentialLength].
  now destruct (truthy (now (timeZone this) (dateFormat this))).
Qed.

Lemma increment_adopts_embedded_width_witness :
  increment jan1 invoiceGenerator "INV-20230101-00001"
  = (Return "INV-20230101-00002", set_sequentialLength 5 invoiceGenerator).
Proof.
  apply (increment_adopts_embedded_width jan1 invoiceGenerator "INV-20230101-00001" 1).
  - reflexivity.
  - reflexivity.
  - reflexivity.
  - apply Z.leb_le. reflexivity.
  - apply Z.ltb_lt. reflexivity.
  - apply Z.leb_le. reflexivity.
Defined.

Example increment_without_separator :
  increment jan1 (constructor (Config.make (Some "INV") None (Some 4) (Some "UTC") None))
    "INV2023010100001"
  = (Return "INV2023010100002",
     set_sequentialLength 5
       (constructor (Config.make (Some "INV") None (Some 4) (Some "UTC") None))).
Proof. reflexivity. Qed.

Example increment_on_a_later_day :
  increment (fixedClock "20230102") invoiceGenerator "INV-20230101-00005"
  = (Return "INV-20230102-0001", invoiceGenerator).
Proof. reflexivity. Qed.

(** *** What [validate] accepts *)

(** C6 (as stated) fails: a code without any separator is rejected by
    [validate], while the pattern-length fallback of the stated rule finds
    a digit segment in it. *)
Lemma validate_has_no_pattern_length_fallback :
  ~ (forall now this code, validate now this code = spec_validate now this code).
Proof.
  intros H.
  assert (R := H jan1 invoiceGenerator "INV202301010001").
  vm_compute in R. discriminate R.
Qed.

Example validate_rejects_missing_separator :
  validate jan1 invoiceGenerator "INV202301010001" = false /\
  spec_validate jan1 invoiceGenerator "INV202301010001" = true.
Proof. split; reflexivity. Qed.

Example validate_reads_after_early_separator :
  let this := mkGenerator "INV" "YYYY" 4 "UTC" "-" None (Num 0) in
  validate (fixedClock "2023") this "INV-xxxx00001" = false /\
  spec_validate (fixedClock "2023") this "INV-xxxx00001" = true.
Proof. split; reflexivity. Qed.

(** C6 (amended): [validate(code)] is true exactly when the code starts
    with the prefix, is at least
    [len(prefix) + 2*len(separator) + dateLength + 1] long, and its sequence
    segment is a non-empty digit string, where the segment is what follows
    the last occurrence of a non-empty separator, which must occur, or,
    with an empty separator, what follows the prefix and a date of the
    pattern's length. *)
Theorem validate_iff_shape (now : Clock) (this : SequentialGenerator) (code : string) :
  validate now this code = true <->
  (exists rest, code = prefix this ++ rest) /\
  strlen (prefix this) + 2 * strlen (separator this)
  + getDateFormatLength now this + 1 <= strlen code /\
  exists segment,
    isSequenceSegment now this code segment /\ test_digits segment = true.
Proof.
  split.
  - intros Hv. pose proof (sequenceSegment_is_segment now this code Hv) as Hseg.
    apply validate_iff in Hv. destruct Hv as (Hp & Hlen & _ & Hd).
    split; [now apply startsWith_iff|]. split; [lia|].
    now exists (sequenceSegment now this code).
  - intros (Hp & Hlen & segment & Hseg & Hd).
    apply isSequenceSegment_unique in Hseg. destruct Hseg as [Hsep ->].
    apply validate_iff. split; [now apply startsWith_iff|]. split; [lia|].
    split; assumption.
Qed.

Lemma validate_iff_shape_witness :
  (exists rest, "INV-20230101-0001" = "INV" ++ rest) /\
  3 + 2 * 1 + 8 + 1 <= 17 /\
  exists segment,
    isSequenceSegment jan1 invoiceGenerator "INV-20230101-0001" segment /\
    test_digits segment = true.
Proof.
  apply (proj1 (validate_iff_shape jan1 invoiceGenerator "INV-20230101-0001")).
  reflexivity.
Defined.

(** ** How many digits a sequence needs *)

Module DigitCountFacts.
Import StringFacts NumberFacts GeneratorFacts.

Lemma length_string_of_uint (d : Decimal.uint) :
  String.length (NilEmpty.string_of_uint d) = Decimal.nb_digits d.
Proof. induction d; simpl; congruence. Qed.

(** The accumulator loop of the decimal reader shifts the accumulator by
    one decimal place per digit. *)
Lemma of_uint_acc_bounds (d : Decimal.uint) (acc : positive) :
  exists r, 0 <= r < 10 ^ Z.of_nat (Decimal.nb_digits d) /\
            Z.pos (Pos.of_uint_acc d acc)
            = Z.pos acc * 10 ^ Z.of_nat (Decimal.nb_digits d) + r.
Proof.
  revert acc. induction d as [|d IH|d IH|d IH|d IH|d IH|d IH|d IH|d IH|d IH|d IH];
    intros acc.
  1: { exists 0. cbn [Decimal.nb_digits Pos.of_uint_acc]. change (10 ^ Z.of_nat 0) with 1.
       lia. }
  all: cbn [Decimal.nb_digits Pos.of_uint_acc];
    match goal with
    | |- context [Pos.of_uint_acc _ ?a] => destruct (IH a) as (r & Hr & ->)
    end;
    rewrite Nat2Z.inj_succ, Z.pow_succ_r by lia;
    match goal with
    | |- context [10 ^ ?e] => set (P := 10 ^ e) in *
    end.
  - exists r. nia.
  - exists (1 * P + r). nia.
  - exists (2 * P + r). nia.
  - exists (3 * P + r). nia.
  - exists (4 * P + r). nia.
  - exists (5 * P + r). nia.
  - exists (6 * P + r). nia.
  - exists (7 * P + r). nia.
  - exists (8 * P + r). nia.
  - exists (9 * P + r). nia.
Qed.


(** The decimal form of a positive number starts with a non-zero digit. *)
Lemma to_uint_head (p : positive) :
  Pos.to_uint p <> Decimal.Nil /\ forall d, Pos.to_uint p <> Decimal.D0 d.
Proof.
  split; [apply Unsigned.to_uint_nonnil|]. intros d Hd.
  pose proof (Unsigned.to_of (Pos.to_uint p)) as H.
  rewrite Unsigned.of_to in H. cbn [N.to_uint] in H.
  pose proof (Unsigned.to_uint_nonzero p) as Hz.
  assert (Hn : Decimal.nzhead (Pos.to_uint p) <> Decimal.Nil).
  { intros E. apply DecimalFacts.unorm_0 in E. congruence. }
  rewrite (DecimalFacts.unorm_nzhead _ Hn) in H.
  rewrite Hd in H at 1. symmetry in H.
  now apply DecimalFacts.nzhead_nonzero in H.
Qed.

(** A positive number with [L] decimal digits lies in [10^(L-1) .. 10^L). *)
Lemma toString_pos_bounds (p : positive) :
  let L := strlen (toString (Num (Z.pos p))) in
  10 ^ (L - 1) <= Z.pos p < 10 ^ L.
Proof.
  cbv zeta. unfold strlen, toString. cbn [Z.to_int NilZero.string_of_int].
  destruct (to_uint_head p) as [Hnil Hzero].
  pose proof (Unsigned.of_to p) as Hval.
  assert (Hs : NilZero.string_of_uint (Pos.to_uint p)
               = NilEmpty.string_of_uint (Pos.to_uint p))
    by (revert Hnil; destruct (Pos.to_uint p); [congruence | reflexivity ..]).
  rewrite Hs, length_string_of_uint.
  destruct (Pos.to_uint p) as [|d|d|d|d|d|d|d|d|d|d];
    [congruence | exfalso; eapply Hzero; reflexivity | ..];
    cbn [Pos.of_uint Decimal.nb_digits] in *;
    injection Hval as Hval;
    match type of Hval with
    | Pos.of_uint_acc ?u ?a = _ => destruct (of_uint_acc_bounds u a) as (r & Hr & Hacc)
    end;
    rewrite Hval in Hacc; rewrite Hacc;
    rewrite Nat2Z.inj_succ;
    match goal with
    | |- context [Z.succ ?e - 1] => replace (Z.succ e - 1) with e by lia
    end;
    rewrite Z.pow_succ_r by lia;
    match goal with
    | |- context [10 ^ ?e] => set (P := 10 ^ e) in *
    end; nia.
Qed.

(** A sequence [n >= 1] fits a width exactly when it is below the
    corresponding power of ten. *)
Lemma fits_iff_below_power (n w : Z) :
  1 <= n -> (strlen (toString (Num n)) <= w <-> n < 10 ^ w).
Proof.
  intros Hn. destruct n as [|p|p]; try lia.
  pose proof (toString_pos_bounds p) as Hb. cbv zeta in Hb.
  pose proof (toString_nonempty (Num (Z.pos p))) as Hl.
  set (L := strlen (toString (Num (Z.pos p)))) in *.
  split.
  - intros Hle.
    assert (10 ^ L <= 10 ^ w) by (apply Z.pow_le_mono_r; lia). lia.
  - intros Hlt. destruct (Z_le_gt_dec L w) as [|Hgt]; [assumption|exfalso].
    destruct (Z_lt_le_dec w 0) as [Hneg|Hpos].
    + rewrite Z.pow_neg_r in Hlt by assumption. lia.
    + assert (10 ^ w <= 10 ^ (L - 1)) by (apply Z.pow_le_mono_r; lia). lia.
Qed.

Lemma overflows_iff_power (n : Z) (this : SequentialGenerator) :
  1 <= n ->
  (overflows (Num n) this = true <-> 10 ^ sequentialLength this <= n).
Proof.
  intros Hn. pose proof (fits_iff_below_power n (sequentialLength this) Hn) as H.
  split.
  - intros Ho. apply overflows_iff in Ho. lia.
  - intros Hge. apply overflows_iff. lia.
Qed.

End DigitCountFacts.

(** ** Closed forms of generation *)

Module ClosedForms.
Import StringFacts NumberFacts GeneratorFacts DigitCountFacts.

Lemma set_sequentialLength_same (this : SequentialGenerator) :
  set_sequentialLength (sequentialLength this) this = this.
Proof. now destruct this. Qed.

(** Falling back twice to the same key changes nothing. *)
Lemma truthyOr_again (dateKey : option string) (key : string) :
  truthyOr (Some (truthyOr dateKey key)) key = truthyOr dateKey key.
Proof.
  unfold truthyOr. destruct dateKey as [a|].
  - destruct (truthy a) eqn:Ha; [now rewrite Ha|]. now destruct (truthy key).
  - now destruct (truthy key).
Qed.

(** Rendering the sequence 1 raises a width below 1 to 1. *)
Lemma generateFromSequence_one (now : Clock) (dateKey : option string)
  (this : SequentialGenerator) :
  generateFromSequence now (Num 1) dateKey this =
  (compose this (truthyOr dateKey (getDateKey now this))
     (padStart "1" (Z.max (sequentialLength this) 1) "0"),
   set_sequentialLength (Z.max (sequentialLength this) 1) this).
Proof.
  remember (Z.to_nat (1 - sequentialLength this)) as k eqn:Hk.
  revert dateKey this Hk. induction k as [|k IH]; intros dateKey this Hk.
  - rewrite generateFromSequence_fits by (change (strlen (toString (Num 1))) with 1; lia).
    rewrite Z.max_l by lia. now rewrite set_sequentialLength_same.
  - rewrite generateFromSequence_unfold.
    assert (Ho : overflows (Num 1) this = true)
      by (apply overflows_iff; change (strlen (toString (Num 1))) with 1; lia).
    rewrite Ho, IH by (cbn [sequentialLength set_sequentialLength]; lia).
    cbn [sequentialLength set_sequentialLength].
    change (getDateKey now (set_sequentialLength (sequentialLength this + 1) this))
      with (getDateKey now this).
    rewrite truthyOr_again.
    replace (Z.max (sequentialLength this + 1) 1) with 1 by lia.
    replace (Z.max (sequentialLength this) 1) with 1 by lia.
    reflexivity.
Qed.

(** After an overflow the code carries the sequence 1 at the raised width. *)
Lemma generateFromSequence_overflow (now : Clock) (sequence : number)
  (dateKey : option string) (this : SequentialGenerator) :
  overflows sequence this = true ->
  generateFromSequence now sequence dateKey this =
  (compose this (truthyOr dateKey (getDateKey now this))
     (padStart "1" (Z.max (sequentialLength this + 1) 1) "0"),
   set_sequentialLength (Z.max (sequentialLength this + 1) 1) this).
Proof.
  intros Ho. rewrite generateFromSequence_unfold, Ho, generateFromSequence_one.
  cbn [sequentialLength set_sequentialLength].
  change (getDateKey now (set_sequentialLength (sequentialLength this + 1) this))
    with (getDateKey now this).
  now rewrite truthyOr_again.
Qed.

(** The digit string written by [generateFromSequence]. *)
Lemma generateFromSequence_shape (now : Clock) (n : Z) (dateKey : option string)
  (this : SequentialGenerator) :
  0 <= n ->
  exists digits,
    test_digits digits = true /\
    fst (generateFromSequence now (Num n) dateKey this)
    = compose this (truthyOr dateKey (getDateKey now this)) digits.
Proof.
  intros Hn.
  assert (Hd : forall z w, 0 <= z ->
                 test_digits (padStart (toString (Num z)) w "0") = true).
  { intros z w Hz. pose proof (allDigits_padStart z w Hz) as Ha.
    pose proof (strlen_padStart (toString (Num z)) w "0") as Hl.
    pose proof (toString_nonempty (Num z)).
    destruct (padStart (toString (Num z)) w "0"); [|exact Ha].
    change (strlen "") with 0 in Hl. lia. }
  destruct (overflows (Num n) this) eqn:Ho.
  - rewrite generateFromSequence_overflow by exact Ho.
    eexists. split; [|reflexivity]. apply (Hd 1). lia.
  - apply overflows_false_iff in Ho. rewrite generateFromSequence_fits by exact Ho.
    eexists. split; [|reflexivity]. now apply Hd.
Qed.

(** [generate] is [generateFromSequence] applied to the sequence it stores,
    except that an overflow renders the literal 1. *)
Lemma generate_as_generateFromSequence (now : Clock) (this : SequentialGenerator) :
  let key := getDateKey now this in
  let sequence :=
    match lastGeneratedDate this with
    | Some last => if String.eqb key last then plus1 (currentSequence this) else Num 1
    | None => Num 1
    end in
  let this1 := set_runtime (Some key) sequence this in
  generate now this =
  if overflows sequence this1
  then generateFromSequence now (Num 1) (Some key)
         (set_sequentialLength (sequentialLength this + 1) this1)
  else (compose this key (sequenceString_of sequence this), this1).
Proof. reflexivity. Qed.

End ClosedForms.

(** ** Further properties: counting and overflow *)

Import DigitCountFacts ClosedForms.

(** X1: for a safe integer sequence [n >= 1], [generateFromSequence]
    renders [n] padded to the width and leaves the instance alone when
    [n < 10^width]; from [10^width] on (width [>= 0]) it raises the width by
    one and renders the sequence 1. *)
Theorem generateFromSequence_threshold (now : Clock) (n : Z)
  (dateKey : option string) (this : SequentialGenerator) :
  1 <= n ->
  n <= MAX_SAFE_INTEGER ->
  let key := truthyOr dateKey (getDateKey now this) in
  let w := sequentialLength this in
  (n < 10 ^ w ->
   generateFromSequence now (Num n) dateKey this
   = (compose this key (padStart (toString (Num n)) w "0"), this)) /\
  (0 <= w -> 10 ^ w <= n ->
   generateFromSequence now (Num n) dateKey this
   = (compose this key (padStart "1" (w + 1) "0"),
      set_sequentialLength (w + 1) this)).
Proof.
  intros Hn Hsafe key w. subst key w. split.
  - intros Hlt. apply generateFromSequence_fits.
    now apply fits_iff_below_power.
  - intros Hw Hge.
    rewrite generateFromSequence_overflow by (now apply overflows_iff_power).
    now rewrite Z.max_l by lia.
Qed.

Lemma generateFromSequence_threshold_witness :
  generateFromSequence jan1 (Num 9999) None invoiceGenerator
  = ("INV-20230101-9999", invoiceGenerator) /\
  generateFromSequence jan1 (Num 10000) None invoiceGenerator
  = ("INV-20230101-00001", set_sequentialLength 5 invoiceGenerator).
Proof.
  split.
  - apply (proj1 (generateFromSequence_threshold jan1 9999 None invoiceGenerator
                    ltac:(lia) ltac:(apply Z.leb_le; reflexivity))).
    reflexivity.
  - apply (proj2 (generateFromSequence_threshold jan1 10000 None invoiceGenerator
                    ltac:(lia) ltac:(apply Z.leb_le; reflexivity))).
    + apply Z.leb_le. reflexivity.
    + apply Z.leb_le. reflexivity.
Defined.

(** The first call on a date key. *)
Lemma generate_fresh_key (now : Clock) (this : SequentialGenerator) :
  lastGeneratedDate this <> Some (getDateKey now this) ->
  1 <= sequentialLength this ->
  generate now this =
  (compose this (getDateKey now this) (padStart "1" (sequentialLength this) "0"),
   set_runtime (Some (getDateKey now this)) (Num 1) this).
Proof.
  intros Hne Hw. rewrite generate_as_generateFromSequence. cbv zeta.
  assert (Hs : match lastGeneratedDate this with
               | Some last => if String.eqb (getDateKey now this) last
                              then plus1 (currentSequence this) else Num 1
               | None => Num 1
               end = Num 1).
  { destruct (lastGeneratedDate this) as [last|]; [|reflexivity].
    destruct (String.eqb_spec (getDateKey now this) last) as [E|E]; congruence. }
  rewrite Hs.
  assert (Ho : overflows (Num 1)
                 (set_runtime (Some (getDateKey now this)) (Num 1) this) = false).
  { apply overflows_false_iff. change (strlen (toString (Num 1))) with 1.
    cbn [sequentialLength set_runtime]. lia. }
  now rewrite Ho.
Qed.

(** X2: on a first call, after [reset()], or when the date key has changed,
    [generate()] with a width of at least 1 returns the code of sequence 1
    for the fresh key, whatever sequence was stored, and stores that key
    with sequence 1. *)
Theorem generate_starts_at_one (now : Clock) (this : SequentialGenerator) :
  lastGeneratedDate this <> Some (getDateKey now this) ->
  1 <= sequentialLength this ->
  generate now this =
  (compose this (getDateKey now this) (padStart "1" (sequentialLength this) "0"),
   set_runtime (Some (getDateKey now this)) (Num 1) this).
Proof. exact (generate_fresh_key now this). Qed.

Lemma generate_starts_at_one_witness :
  generate jan1 (set_runtime (Some "20221231") (Num 57) invoiceGenerator)
  = ("INV-20230101-0001", set_runtime (Some "20230101") (Num 1) invoiceGenerator) /\
  generate jan1 (reset (set_runtime (Some "20230101") (Num 57) invoiceGenerator))
  = ("INV-20230101-0001", set_runtime (Some "20230101") (Num 1) invoiceGenerator).
Proof.
  split.
  - apply (generate_starts_at_one jan1
             (set_runtime (Some "20221231") (Num 57) invoiceGenerator)).
    + discriminate.
    + apply Z.leb_le. reflexivity.
  - apply (generate_starts_at_one jan1
             (reset (set_runtime (Some "20230101") (Num 57) invoiceGenerator))).
    + discriminate.
    + apply Z.leb_le. reflexivity.
Defined.

(** A further call on the same date key. *)
Lemma generate_same_key (now : Clock) (this : SequentialGenerator) (m : Z) :
  lastGeneratedDate this = Some (getDateKey now this) ->
  currentSequence this = Num m ->
  0 <= m ->
  m + 1 < 10 ^ sequentialLength this ->
  generate now this =
  (compose this (getDateKey now this)
     (padStart (toString (Num (m + 1))) (sequentialLength this) "0"),
   set_runtime (Some (getDateKey now this)) (Num (m + 1)) this).
Proof.
  intros Hd Hs Hm Hlt. rewrite generate_as_generateFromSequence. cbv zeta.
  rewrite Hd, Hs, String.eqb_refl. cbn [plus1].
  assert (Ho : overflows (Num (m + 1))
                 (set_runtime (Some (getDateKey now this)) (Num (m + 1)) this) = false).
  { apply overflows_false_iff. cbn [sequentialLength set_runtime].
    apply fits_iff_below_power; lia. }
  now rewrite Ho.
Qed.

(** X3: while the date key is unchanged and the next sequence [m + 1] is
    below [10^width], [generate()] returns the code of [m + 1] and stores
    it, leaving the width as it is. *)
Theorem generate_counts_up (now : Clock) (this : SequentialGenerator) (m : Z) :
  lastGeneratedDate this = Some (getDateKey now this) ->
  currentSequence this = Num m ->
  0 <= m ->
  m + 1 < 10 ^ sequentialLength this ->
  generate now this =
  (compose this (getDateKey now this)
     (padStart (toString (Num (m + 1))) (sequentialLength this) "0"),
   set_runtime (Some (getDateKey now this)) (Num (m + 1)) this).
Proof. exact (generate_same_key now this m). Qed.

Lemma generate_counts_up_witness :
  generate jan1 (set_runtime (Some "20230101") (Num 41) invoiceGenerator)
  = ("INV-20230101-0042", set_runtime (Some "20230101") (Num 42) invoiceGenerator).
Proof.
  apply (generate_counts_up jan1
           (set_runtime (Some "20230101") (Num 41) invoiceGenerator) 41).
  - reflexivity.
  - reflexivity.
  - lia.
  - apply Z.ltb_lt. reflexivity.
Defined.

(** X4: when the date key is unchanged and the next sequence [m + 1] has
    reached [10^width] (width [>= 0]), [generate()] stores [m + 1], raises
    the width by one and returns the code of sequence 1 at the new width. *)
Theorem generate_restarts_at_power (now : Clock) (this : SequentialGenerator) (m : Z) :
  lastGeneratedDate this = Some (getDateKey now this) ->
  currentSequence this = Num m ->
  0 <= m ->
  0 <= sequentialLength this ->
  10 ^ sequentialLength this <= m + 1 ->
  generate now this =
  (compose this (getDateKey now this)
     (padStart "1" (sequentialLength this + 1) "0"),
   set_sequentialLength (sequentialLength this + 1)
     (set_runtime (Some (getDateKey now this)) (Num (m + 1)) this)).
Proof.
  intros Hd Hs Hm Hw Hge. rewrite generate_as_generateFromSequence. cbv zeta.
  rewrite Hd, Hs, String.eqb_refl. cbn [plus1].
  assert (Ho : overflows (Num (m + 1))
                 (set_runtime (Some (getDateKey now this)) (Num (m + 1)) this) = true).
  { apply overflows_iff_power; [lia|]. cbn [sequentialLength set_runtime]. exact Hge. }
  rewrite Ho, generateFromSequence_one.
  cbn [sequentialLength set_sequentialLength set_runtime].
  rewrite Z.max_l by lia.
  unfold compose, truthyOr, getDateKey.
  cbn [prefix separator timeZone dateFormat set_sequentialLength set_runtime].
  now destruct (truthy (now (timeZone this) (dateFormat this))).
Qed.

Lemma generate_restarts_at_power_witness :
  generate jan1 (set_runtime (Some "20230101") (Num 9999) invoiceGenerator)
  = ("INV-20230101-00001",
     set_sequentialLength 5
       (set_runtime (Some "20230101") (Num 10000) invoiceGenerator)).
Proof.
  apply (generate_restarts_at_power jan1
           (set_runtime (Some "20230101") (Num 9999) invoiceGenerator) 9999).
  - reflexivity.
  - reflexivity.
  - lia.
  - apply Z.leb_le. reflexivity.
  - apply Z.leb_le. reflexivity.
Defined.

(** Consecutive calls under one key, started from a stored sequence [m]. *)
Lemma generate_times_from (now : Clock) (this : SequentialGenerator) (m : Z) (k : nat) :
  0 <= m ->
  m + Z.of_nat k < 10 ^ sequentialLength this ->
  generate_times k now (set_runtime (Some (getDateKey now this)) (Num m) this) =
  (map (fun i => compose this (getDateKey now this)
                   (padStart (toString (Num (m + Z.of_nat i)))
                      (sequentialLength this) "0"))
       (seq 1 k),
   set_runtime (Some (getDateKey now this)) (Num (m + Z.of_nat k)) this).
Proof.
  revert m. induction k as [|k IH]; intros m Hm Hlt.
  - cbn [generate_times seq map]. now rewrite Z.add_0_r.
  - cbn [generate_times].
    rewrite (generate_same_key now
               (set_runtime (Some (getDateKey now this)) (Num m) this) m)
      by (try reflexivity; cbn [sequentialLength set_runtime]; lia).
    change (getDateKey now (set_runtime (Some (getDateKey now this)) (Num m) this))
      with (getDateKey now this).
    change (set_runtime (Some (getDateKey now this)) (Num (m + 1))
              (set_runtime (Some (getDateKey now this)) (Num m) this))
      with (set_runtime (Some (getDateKey now this)) (Num (m + 1)) this).
    rewrite Nat2Z.inj_succ in Hlt.
    rewrite IH by lia.
    cbn [seq map]. rewrite <- (seq_shift k 1), map_map.
    replace (m + 1 + Z.of_nat k) with (m + Z.of_nat (S k))
      by (rewrite Nat2Z.inj_succ; lia).
    f_equal. f_equal.
    apply map_ext. intros i.
    replace (m + 1 + Z.of_nat i) with (m + Z.of_nat (S i))
      by (rewrite Nat2Z.inj_succ; lia).
    reflexivity.
Qed.

(** X5: started on a fresh date key with a width of at least 1, [n]
    consecutive [generate()] calls with [1 <= n < 10^width] return the codes
    of the sequences 1, 2, ..., n in order, and leave the sequence [n]
    stored and the width unchanged. *)
Theorem generate_times_counts (now : Clock) (this : SequentialGenerator) (n : nat) :
  lastGeneratedDate this <> Some (getDateKey now this) ->
  (1 <= n)%nat ->
  Z.of_nat n < 10 ^ sequentialLength this ->
  generate_times n now this =
  (map (fun i => compose this (getDateKey now this)
                   (padStart (toString (Num (Z.of_nat i)))
                      (sequentialLength this) "0"))
       (seq 1 n),
   set_runtime (Some (getDateKey now this)) (Num (Z.of_nat n)) this).
Proof.
  intros Hne Hn Hlt. destruct n as [|k]; [lia|].
  assert (Hw : 1 <= sequentialLength this).
  { destruct (Z_lt_le_dec (sequentialLength this) 1) as [Hs|]; [exfalso|assumption].
    destruct (Z_lt_le_dec (sequentialLength this) 0) as [Hneg|Hz].
    - rewrite Z.pow_neg_r in Hlt by assumption. lia.
    - replace (sequentialLength this) with 0 in Hlt by lia.
      change (10 ^ 0) with 1 in Hlt. lia. }
  cbn [generate_times]. rewrite generate_fresh_key by assumption.
  pose proof (generate_times_from now this 1 k ltac:(lia) ltac:(lia)) as H.
  rewrite H. cbn [seq map]. rewrite <- (seq_shift k 1), map_map.
  replace (1 + Z.of_nat k) with (Z.of_nat (S k)) by lia.
  f_equal. f_equal.
  apply map_ext. intros i.
  replace (1 + Z.of_nat i) with (Z.of_nat (S i)) by (rewrite Nat2Z.inj_succ; lia).
  reflexivity.
Qed.

Lemma generate_times_counts_witness :
  generate_times 3 jan1 invoiceGenerator
  = (["INV-20230101-0001"; "INV-20230101-0002"; "INV-20230101-0003"],
     set_runtime (Some "20230101") (Num 3) invoiceGenerator).
Proof.
  apply (generate_times_counts jan1 invoiceGenerator 3).
  - discriminate.
  - lia.
  - apply Z.ltb_lt. reflexivity.
Defined.

(** ** Further properties: what the calls leave alone *)

Module FrameFacts.
Import StringFacts NumberFacts GeneratorFacts ClosedForms.

Lemma sameConfig_refl (this : SequentialGenerator) : sameConfig this this.
Proof. repeat split. Qed.

Lemma sameConfig_trans (a b c : SequentialGenerator) :
  sameConfig a b -> sameConfig b c -> sameConfig a c.
Proof. unfold sameConfig. intuition congruence. Qed.

Lemma generateFromSequence_sameConfig (now : Clock) (sequence : number)
  (dateKey : option string) (this : SequentialGenerator) :
  sameConfig (snd (generateFromSequence now sequence dateKey this)) this.
Proof.
  pose proof (generateFromSequence_config now sequence dateKey this) as H.
  cbv zeta in H. unfold sameConfig. intuition.
Qed.

Lemma generate_sameConfig (now : Clock) (this : SequentialGenerator) :
  sameConfig (snd (generate now this)) this.
Proof.
  rewrite generate_as_generateFromSequence. cbv zeta.
  destruct (overflows _ _).
  - eapply sameConfig_trans; [apply generateFromSequence_sameConfig|].
    repeat split.
  - repeat split.
Qed.

(** A valid code makes [increment] end in one [generateFromSequence] call on
    the instance itself or on the instance with an adopted width. *)
Lemma increment_valid_form (now : Clock) (this : SequentialGenerator) (code : string) :
  validate now this code = true ->
  exists nextSequence this1,
    (nextSequence = Num 1 \/ nextSequence = plus1 (extractSequence now this code)) /\
    (this1 = this \/ exists w, this1 = set_sequentialLength w this) /\
    increment now this code =
    (Return (fst (generateFromSequence now nextSequence
                    (Some (getDateKey now this)) this1)),
     snd (generateFromSequence now nextSequence (Some (getDateKey now this)) this1)).
Proof.
  intros Hv. unfold increment. rewrite Hv. cbn [negb]. cbv zeta.
  destruct (String.eqb _ _).
  - match goal with
    | |- context [if ?c then set_sequentialLength ?w this else this] =>
        destruct c; [exists (plus1 (extractSequence now this code)),
                            (set_sequentialLength w this)
                    | exists (plus1 (extractSequence now this code)), this]
    end.
    + split; [now right|]. split; [right; eexists; reflexivity|].
      now destruct (generateFromSequence _ _ _ _).
    + split; [now right|]. split; [now left|].
      now destruct (generateFromSequence _ _ _ _).
  - exists (Num 1), this. split; [now left|]. split; [now left|].
    now destruct (generateFromSequence _ _ _ _).
Qed.

Lemma increment_sameConfig (now : Clock) (this : SequentialGenerator) (code : string) :
  sameConfig (snd (increment now this code)) this.
Proof.
  destruct (validate now this code) eqn:Hv.
  - destruct (increment_valid_form now this code Hv) as (n & this1 & _ & H1 & ->).
    cbn [snd]. eapply sameConfig_trans; [apply generateFromSequence_sameConfig|].
    destruct H1 as [->|[w ->]]; repeat split.
  - rewrite (increment_invalid now this code Hv). apply sameConfig_refl.
Qed.

Lemma increment_runtime (now : Clock) (this : SequentialGenerator) (code : string) :
  lastGeneratedDate (snd (increment now this code)) = lastGeneratedDate this /\
  currentSequence (snd (increment now this code)) = currentSequence this.
Proof.
  destruct (validate now this code) eqn:Hv.
  - destruct (increment_valid_form now this code Hv) as (n & this1 & _ & H1 & ->).
    cbn [snd].
    destruct (generateFromSequence_runtime now n (Some (getDateKey now this)) this1)
      as [-> ->].
    destruct H1 as [->|[w ->]]; split; reflexivity.
  - rewrite (increment_invalid now this code Hv). split; reflexivity.
Qed.

Lemma parse_state (now : Clock) (this : SequentialGenerator) (code : string) :
  snd (parse now this code) = this.
Proof. unfold parse. now destruct (validate now this code). Qed.

Lemma stateAfter_sameConfig (now : Clock) (c : call) (this : SequentialGenerator) :
  sameConfig (stateAfter now c this) this.
Proof.
  destruct c; cbn [stateAfter]; try apply sameConfig_refl.
  - apply generate_sameConfig.
  - apply generateFromSequence_sameConfig.
  - apply increment_sameConfig.
  - rewrite parse_state. apply sameConfig_refl.
  - repeat split.
Qed.

Lemma stateAfter_wellFormed (now : Clock) (c : call) (this : SequentialGenerator) :
  wellFormedRuntime this -> wellFormedRuntime (stateAfter now c this).
Proof.
  intros Hwf. unfold wellFormedRuntime in *.
  destruct c; cbn [stateAfter]; try exact Hwf.
  - destruct (generate_runtime now this) as [Hd Hs]. right.
    exists (getDateKey now this).
    destruct Hwf as [[Hd0 Hs0] | (key & z & Hd0 & Hs0 & Hz)];
      rewrite Hd0 in Hs; try rewrite Hs0 in Hs.
    + exists 1. repeat split; [assumption.. | lia].
    + destruct (String.eqb _ _); [exists (z + 1) | exists 1];
        repeat split; try assumption; lia.
  - destruct (generateFromSequence_runtime now sequence dateKey this) as [-> ->].
    exact Hwf.
  - destruct (increment_runtime now this lastCode) as [-> ->]. exact Hwf.
  - now rewrite parse_state.
  - left. split; reflexivity.
Qed.

End FrameFacts.

Import FrameFacts.

(** X6: no public call, and no sequence of public calls, changes the
    prefix, the date format, the time zone or the separator. *)
Theorem run_keeps_configuration (trace : list (Clock * call))
  (this : SequentialGenerator) :
  prefix (run trace this) = prefix this /\
  dateFormat (run trace this) = dateFormat this /\
  timeZone (run trace this) = timeZone this /\
  separator (run trace this) = separator this.
Proof.
  change (sameConfig (run trace this) this).
  revert this. induction trace as [|[now c] rest IH]; intros this; cbn [run].
  - apply sameConfig_refl.
  - eapply sameConfig_trans; [apply IH | apply stateAfter_sameConfig].
Qed.

(** X7: on an instance built by the constructor, after any sequence of
    public calls, either no date key is stored and the sequence is 0, or a
    date key is stored and the sequence is an integer of at least 1; the
    stored sequence is never [NaN] and never negative. *)
Theorem run_keeps_runtime_well_formed (trace : list (Clock * call))
  (config : Config.t) :
  wellFormedRuntime (run trace (constructor config)).
Proof.
  assert (H : forall this, wellFormedRuntime this -> wellFormedRuntime (run trace this)).
  { induction trace as [|[now c] rest IH]; intros this Hwf; cbn [run]; [exact Hwf|].
    apply IH. now apply stateAfter_wellFormed. }
  apply H. left. split; reflexivity.
Qed.

(** X8: [increment] never touches the stored date key or the stored
    sequence, whether it throws or returns; together with the
    configuration it can only change the width. *)
Theorem increment_keeps_runtime (now : Clock) (this : SequentialGenerator)
  (lastCode : string) :
  let this' := snd (increment now this lastCode) in
  lastGeneratedDate this' = lastGeneratedDate this /\
  currentSequence this' = currentSequence this /\
  this' = set_sequentialLength (sequentialLength this') this.
Proof.
  cbv zeta.
  destruct (increment_runtime now this lastCode) as [Hd Hs].
  destruct (increment_sameConfig now this lastCode) as (Hp & Hf & Ht & Hsep).
  set (t := snd (increment now this lastCode)) in *. clearbody t.
  destruct t, this. cbn in *. subst. repeat split.
Qed.

(** X9: with a width [w >= 0], one [generate()] or [generateFromSequence]
    call leaves the width at [w] or raises it to [w + 1], never further. *)
Theorem width_grows_by_at_most_one (now : Clock) (sequence : number)
  (dateKey : option string) (this : SequentialGenerator) :
  0 <= sequentialLength this ->
  sequentialLength this <= sequentialLength (snd (generate now this))
                        <= sequentialLength this + 1 /\
  sequentialLength this
  <= sequentialLength (snd (generateFromSequence now sequence dateKey this))
  <= sequentialLength this + 1.
Proof.
  intros Hw. split; (split; [apply generate_width || apply generateFromSequence_width|]).
  - rewrite generate_as_generateFromSequence. cbv zeta.
    destruct (overflows _ _).
    + rewrite generateFromSequence_one.
      cbn [snd sequentialLength set_sequentialLength set_runtime]. lia.
    + cbn [snd sequentialLength set_runtime]. lia.
  - destruct (overflows sequence this) eqn:Ho.
    + rewrite generateFromSequence_overflow by exact Ho.
      cbn [snd sequentialLength set_sequentialLength]. lia.
    + apply overflows_false_iff in Ho.
      rewrite generateFromSequence_fits by exact Ho. cbn [snd]. lia.
Qed.

Lemma width_grows_by_at_most_one_witness :
  4 <= sequentialLength
         (snd (generate jan1 (set_runtime (Some "20230101") (Num 9999) invoiceGenerator)))
    <= 4 + 1 /\
  4 <= sequentialLength
         (snd (generateFromSequence jan1 (Num 123456789) None invoiceGenerator))
    <= 4 + 1.
Proof.
  apply (width_grows_by_at_most_one jan1 (Num 123456789) None
           (set_runtime (Some "20230101") (Num 9999) invoiceGenerator)).
  apply Z.leb_le. reflexivity.
Defined.

(** ** Further properties: validation and the stateless calls *)

Module ValidateFacts.
Import StringFacts LastIndexFacts NumberFacts GeneratorFacts SegmentFacts.
Import DigitCountFacts ClosedForms FrameFacts.

Lemma validate_sameConfig (now : Clock) (a b : SequentialGenerator) (code : string) :
  sameConfig a b -> validate now a code = validate now b code.
Proof.
  intros (Hp & Hf & Ht & Hs). unfold validate, getDateFormatLength.
  now rewrite Hp, Hf, Ht, Hs.
Qed.

Lemma test_digits_allDigits (s : string) : test_digits s = true -> allDigits s = true.
Proof. destruct s; [discriminate | trivial]. Qed.

Lemma test_digits_strlen (s : string) : test_digits s = true -> 1 <= strlen s.
Proof. destruct s; [discriminate|]. intros _. unfold strlen. cbn [String.length]. lia. Qed.

Lemma test_digits_padStart (z w : Z) :
  0 <= z -> test_digits (padStart (toString (Num z)) w "0") = true.
Proof.
  intros Hz. pose proof (allDigits_padStart z w Hz) as Ha.
  pose proof (strlen_padStart (toString (Num z)) w "0") as Hl.
  pose proof (toString_nonempty (Num z)).
  destruct (padStart (toString (Num z)) w "0"); [|exact Ha].
  change (strlen "") with 0 in Hl. lia.
Qed.

Lemma truthyOr_same (key : string) : truthyOr (Some key) key = key.
Proof. unfold truthyOr. now destruct (truthy key). Qed.

(** Every digit character is read by the decimal reader. *)
Lemma uint_of_string_digits (s : string) :
  allDigits s = true -> exists d, NilEmpty.uint_of_string s = Some d.
Proof.
  induction s as [|c s IH]; intros H; [now exists Decimal.Nil|].
  cbn [allDigits] in H. apply andb_true_iff in H. destruct H as [Hc Hs].
  destruct (IH Hs) as [d Hd]. cbn [NilEmpty.uint_of_string]. rewrite Hd.
  revert Hc. destruct c as [[] [] [] [] [] [] [] []]; vm_compute;
    intros Hc; try discriminate Hc; eexists; reflexivity.
Qed.

(** A non-empty digit string denotes a non-negative integer. *)
Lemma digitsValue_digits (s : string) :
  test_digits s = true -> exists n, 0 <= n /\ digitsValue s = Num n.
Proof.
  intros H. pose proof (test_digits_allDigits s H) as Ha.
  destruct (uint_of_string_digits s Ha) as [d Hd].
  unfold digitsValue, NilZero.uint_of_string.
  destruct s; [discriminate|]. rewrite Hd.
  exists (Z.of_uint d). split; [|reflexivity].
  unfold Z.of_uint. apply N2Z.is_nonneg.
Qed.


(** The sequence segment of [head ++ separator ++ digits]. *)
Lemma sequenceSegment_after_head (now : Clock) (this : SequentialGenerator)
  (head digits : string) :
  endsWithDigit (separator this) = false -> allDigits digits = true ->
  (truthy (separator this) = false ->
   strlen head = strlen (prefix this) + getDateFormatLength now this) ->
  sequenceSegment now this (head ++ separator this ++ digits) = digits.
Proof.
  intros He Hd Hhead. unfold sequenceSegment, sequenceStartIndex. cbv zeta.
  destruct (truthy (separator this)) eqn:Ht.
  - rewrite lastIndexOf_before_digits; [| now apply truthy_true | assumption..].
    pose proof (strlen_nonneg head).
    destruct (Z.eqb_spec (strlen head) (-1)); [lia|].
    rewrite <- strlen_app, <- app_assoc. apply substring_app_from.
  - specialize (Hhead eq_refl). apply truthy_false in Ht. rewrite Ht.
    cbn [append]. change (strlen "") with 0.
    rewrite !Z.add_0_r, <- Hhead. apply substring_app_from.
Qed.

(** [increment] on a valid code that carries the current date key. *)
Lemma increment_same_day (now : Clock) (this : SequentialGenerator) (code : string) :
  validate now this code = true ->
  extractDate now this code = getDateKey now this ->
  let L := strlen (sequenceSegment now this code) in
  let this1 := if L >? sequentialLength this
               then set_sequentialLength L this else this in
  let g := generateFromSequence now (plus1 (extractSequence now this code))
             (Some (getDateKey now this)) this1 in
  increment now this code = (Return (fst g), snd g).
Proof.
  intros Hv Hd. cbv zeta.
  destruct (sequenceStartIndex_valid now this code Hv) as [Hrange Hstart].
  assert (Hlen : strlen (sequenceSegment now this code)
                 = strlen code - sequenceStartIndex now this code)
    by (apply strlen_substring_from; exact Hrange).
  assert (HL : (if truthy (separator this)
                then strlen code
                     - (lastIndexOf code (separator this) + strlen (separator this))
                else strlen code
                     - (strlen (prefix this) + getDateFormatLength now this))
               = strlen (sequenceSegment now this code)).
  { rewrite Hlen, Hstart. now destruct (truthy (separator this)). }
  unfold increment. rewrite Hv. cbn [negb]. cbv zeta.
  rewrite Hd, String.eqb_refl, HL.
  now destruct (generateFromSequence _ _ _ _).
Qed.

End ValidateFacts.

Import ValidateFacts.

(** A sufficient shape for a valid code. *)
Lemma validate_accepts (now : Clock) (this : SequentialGenerator)
  (middle digits : string) :
  test_digits digits = true ->
  endsWithDigit (separator this) = false ->
  (if truthy (separator this)
   then strlen (separator this) + getDateFormatLength now this <= strlen middle
   else strlen middle = getDateFormatLength now this) ->
  validate now this (prefix this ++ middle ++ separator this ++ digits) = true.
Proof.
  intros Hd He Hm. apply validate_iff.
  pose proof (test_digits_strlen digits Hd) as Hdl.
  pose proof (strlen_nonneg (separator this)) as Hsl.
  split; [apply prefix_app|]. split.
  - rewrite !strlen_app. destruct (truthy (separator this)) eqn:Ht; [lia|].
    apply truthy_false in Ht. rewrite Ht in *. change (strlen "") with 0. lia.
  - rewrite <- app_assoc. split.
    + intros Ht. rewrite lastIndexOf_before_digits;
        [| now apply truthy_true | assumption | now apply test_digits_allDigits].
      pose proof (strlen_nonneg (prefix this ++ middle)). lia.
    + rewrite sequenceSegment_after_head;
        [assumption | assumption | now apply test_digits_allDigits |].
      intros Ht. rewrite Ht in Hm. rewrite strlen_app. lia.
Qed.

(** X10: [validate] looks only at the prefix, the length and the sequence
    digits.  With a separator that does not end in a digit, any text of at
    least [len(separator) + dateLength] characters between the prefix and
    the last separator is accepted; with an empty separator, any text of
    exactly [dateLength] characters after the prefix is accepted. *)
Theorem validate_ignores_date_text (now : Clock) (this : SequentialGenerator)
  (middle digits : string) :
  test_digits digits = true ->
  endsWithDigit (separator this) = false ->
  (if truthy (separator this)
   then strlen (separator this) + getDateFormatLength now this <= strlen middle
   else strlen middle = getDateFormatLength now this) ->
  validate now this (prefix this ++ middle ++ separator this ++ digits) = true.
Proof. exact (validate_accepts now this middle digits). Qed.

Lemma validate_ignores_date_text_witness :
  validate jan1 invoiceGenerator ("INV" ++ "?not a date!" ++ "-" ++ "007") = true.
Proof.
  apply (validate_ignores_date_text jan1 invoiceGenerator "?not a date!" "007").
  - reflexivity.
  - reflexivity.
  - apply Z.leb_le. reflexivity.
Defined.

(** The number read from a valid code, in the integer model of numbers. *)
Lemma valid_sequence_number (now : Clock) (this : SequentialGenerator)
  (code : string) :
  validate now this code = true ->
  exists n, 0 <= n /\
            extractSequence now this code = Num n /\
            parse now this code
            = (Return (mkParsed (prefix this) (extractDate now this code) (Num n)), this).
Proof.
  intros Hv. pose proof Hv as Hv'. apply validate_iff in Hv'.
  destruct Hv' as (_ & _ & _ & Hd).
  destruct (digitsValue_digits _ Hd) as (n & Hn & Hval).
  exists n. split; [assumption|].
  assert (He : extractSequence now this code = Num n)
    by (unfold extractSequence; now rewrite parseInt_digits).
  split; [assumption|]. now rewrite parse_valid, He.
Qed.



(** Generated codes are valid, in the integer model of numbers. *)
Lemma generated_code_valid (now : Clock) (n : Z)
  (dateKey : option string) (this : SequentialGenerator) :
  0 <= n ->
  endsWithDigit (separator this) = false ->
  strlen (truthyOr dateKey (getDateKey now this)) = getDateFormatLength now this ->
  validate now (snd (generateFromSequence now (Num n) dateKey this))
    (fst (generateFromSequence now (Num n) dateKey this)) = true.
Proof.
  intros Hn He Hk.
  rewrite (validate_sameConfig now _ this)
    by apply generateFromSequence_sameConfig.
  destruct (generateFromSequence_shape now n dateKey this Hn) as (digits & Hd & ->).
  unfold compose. rewrite <- (app_assoc (separator this)).
  apply validate_accepts; [assumption..|].
  rewrite strlen_app, Hk.
  destruct (truthy (separator this)) eqn:Ht; [lia|].
  apply truthy_false in Ht. rewrite Ht. change (strlen "") with 0. lia.
Qed.

(** X12: a code returned by [generateFromSequence] for a safe integer
    sequence [n >= 0] is accepted by [validate] on the instance the call
    leaves behind, when the separator does not end in a digit and the date
    key used has the length of the current date key. *)
Theorem generateFromSequence_output_validates (now : Clock) (n : Z)
  (dateKey : option string) (this : SequentialGenerator) :
  0 <= n ->
  n <= MAX_SAFE_INTEGER ->
  endsWithDigit (separator this) = false ->
  strlen (truthyOr dateKey (getDateKey now this)) = getDateFormatLength now this ->
  validate now (snd (generateFromSequence now (Num n) dateKey this))
    (fst (generateFromSequence now (Num n) dateKey this)) = true.
Proof. intros Hn _. exact (generated_code_valid now n dateKey this Hn). Qed.

Lemma generateFromSequence_output_validates_witness :
  validate jan1 (snd (generateFromSequence jan1 (Num 123456) (Some "20221231")
                        invoiceGenerator))
    (fst (generateFromSequence jan1 (Num 123456) (Some "20221231") invoiceGenerator))
  = true.
Proof.
  apply (generateFromSequence_output_validates jan1 123456 (Some "20221231")
           invoiceGenerator).
  - lia.
  - apply Z.leb_le. reflexivity.
  - reflexivity.
  - reflexivity.
Defined.

(** X13: a code returned by [generate()] is accepted by [validate] on the
    instance the call leaves behind, whenever the runtime fields are as the
    class itself leaves them and the separator does not end in a digit;
    this includes the call that overflows. *)
Theorem generate_output_validates (now : Clock) (this : SequentialGenerator) :
  wellFormedRuntime this ->
  endsWithDigit (separator this) = false ->
  validate now (snd (generate now this)) (fst (generate now this)) = true.
Proof.
  intros Hwf He.
  rewrite (validate_sameConfig now _ this) by apply generate_sameConfig.
  assert (Hseq : exists z, 0 <= z /\
            match lastGeneratedDate this with
            | Some last => if String.eqb (getDateKey now this) last
                           then plus1 (currentSequence this) else Num 1
            | None => Num 1
            end = Num z).
  { destruct Hwf as [[-> _] | (key & z & -> & -> & Hz)].
    - exists 1. split; [lia | reflexivity].
    - destruct (String.eqb _ _); [exists (z + 1) | exists 1];
        (split; [lia | reflexivity]). }
  destruct Hseq as (z & Hz & Hs).
  assert (Hmid : forall digits, test_digits digits = true ->
            validate now this (compose this (getDateKey now this) digits) = true).
  { intros digits Hd. unfold compose. rewrite <- (app_assoc (separator this)).
    apply validate_accepts; [assumption..|].
    rewrite strlen_app. unfold getDateFormatLength, getDateKey.
    destruct (truthy (separator this)) eqn:Ht; [lia|].
    apply truthy_false in Ht. rewrite Ht. change (strlen "") with 0. lia. }
  rewrite generate_as_generateFromSequence. cbv zeta. rewrite Hs.
  destruct (overflows _ _).
  - rewrite generateFromSequence_one. cbn [fst].
    unfold compose, getDateKey.
    cbn [prefix separator timeZone dateFormat set_sequentialLength set_runtime].
    fold (getDateKey now this). rewrite truthyOr_same.
    apply (Hmid (padStart "1" _ "0")). apply (test_digits_padStart 1). lia.
  - cbn [fst]. apply Hmid. now apply test_digits_padStart.
Qed.

Lemma generate_output_validates_witness :
  validate jan1
    (snd (generate jan1 (set_runtime (Some "20230101") (Num 9999) invoiceGenerator)))
    (fst (generate jan1 (set_runtime (Some "20230101") (Num 9999) invoiceGenerator)))
  = true.
Proof.
  apply (generate_output_validates jan1
           (set_runtime (Some "20230101") (Num 9999) invoiceGenerator)).
  - right. exists "20230101", 9999. repeat split. lia.
  - reflexivity.
Defined.

(** ** Further properties: chaining [increment] *)

(** X14: the code returned by [increment] for a valid code whose sequence
    segment has at most 15 digits is again valid on the instance the call
    leaves behind, when the separator does not end in a digit; so the
    result can be stored and incremented again. *)
Theorem increment_output_validates (now : Clock) (this : SequentialGenerator)
  (lastCode : string) :
  validate now this lastCode = true ->
  strlen (sequenceSegment now this lastCode) <= 15 ->
  endsWithDigit (separator this) = false ->
  exists code this',
    increment now this lastCode = (Return code, this') /\
    validate now this' code = true.
Proof.
  intros Hv _ He.
  destruct (increment_valid_form now this lastCode Hv)
    as (next & this1 & Hnext & Hthis1 & Hinc).
  rewrite Hinc. eexists. eexists. split; [reflexivity|].
  assert (Hn : exists z, 0 <= z /\ next = Num z).
  { destruct Hnext as [->| ->]; [exists 1; split; [lia | reflexivity]|].
    destruct (valid_sequence_number now this lastCode Hv)
      as (n & Hn & -> & _).
    exists (n + 1). split; [lia | reflexivity]. }
  destruct Hn as (z & Hz & ->).
  assert (Hc : sameConfig this1 this)
    by (destruct Hthis1 as [->|[w ->]]; repeat split).
  destruct Hc as (Hp & Hf & Ht & Hs).
  replace (getDateKey now this) with (getDateKey now this1)
    by (unfold getDateKey; now rewrite Hf, Ht).
  apply generated_code_valid.
  - exact Hz.
  - now rewrite Hs.
  - now rewrite truthyOr_same.
Qed.

Lemma increment_output_validates_witness :
  exists code this',
    increment jan1 invoiceGenerator "INV-20230101-99999" = (Return code, this') /\
    validate jan1 this' code = true.
Proof.
  apply (increment_output_validates jan1 invoiceGenerator "INV-20230101-99999").
  - reflexivity.
  - apply Z.leb_le. reflexivity.
  - reflexivity.
Defined.

(** X15: incrementing the code of sequence [n] yields the code of sequence
    [n + 1]: for [n >= 1] with [n + 1] a safe integer below [10^width] and a
    separator that does not end in a digit,
    [increment(generateFromSequence(n))] returns the code
    [generateFromSequence(n + 1)] and leaves the instance unchanged. *)
Theorem increment_after_generateFromSequence (now : Clock)
  (this : SequentialGenerator) (n : Z) :
  1 <= n ->
  n + 1 <= MAX_SAFE_INTEGER ->
  n + 1 < 10 ^ sequentialLength this ->
  endsWithDigit (separator this) = false ->
  increment now this (fst (generateFromSequence now (Num n) None this))
  = (Return (fst (generateFromSequence now (Num (n + 1)) None this)), this).
Proof.
  intros Hn _ Hlt He.
  assert (Hfit : strlen (toString (Num n)) <= sequentialLength this)
    by (apply fits_iff_below_power; lia).
  assert (Hfit' : strlen (toString (Num (n + 1))) <= sequentialLength this)
    by (apply fits_iff_below_power; lia).
  pose proof (generated_code_valid now n None this
                ltac:(lia) He eq_refl) as Hv.
  rewrite !generateFromSequence_fits in * by assumption.
  cbn [fst snd truthyOr] in *. unfold sequenceString_of in *.
  set (digits := padStart (toString (Num n)) (sequentialLength this) "0") in *.
  assert (Hd : allDigits digits = true) by (apply allDigits_padStart; lia).
  assert (Hseg : sequenceSegment now this (compose this (getDateKey now this) digits)
                 = digits) by (now apply sequenceSegment_compose).
  rewrite (increment_same_day now this _ Hv)
    by (now apply extractDate_compose).
  cbv zeta. unfold extractSequence. rewrite Hseg.
  assert (Hl : strlen digits = sequentialLength this)
    by (subst digits; rewrite strlen_padStart; lia).
  rewrite Hl, Z.gtb_ltb, Z.ltb_irrefl.
  subst digits. rewrite parseInt_padStart by lia. cbn [plus1].
  rewrite generateFromSequence_fits by assumption.
  cbn [fst snd]. now rewrite truthyOr_same.
Qed.

Lemma increment_after_generateFromSequence_witness :
  increment jan1 invoiceGenerator
    (fst (generateFromSequence jan1 (Num 41) None invoiceGenerator))
  = (Return (fst (generateFromSequence jan1 (Num (41 + 1)) None invoiceGenerator)),
     invoiceGenerator).
Proof.
  apply (increment_after_generateFromSequence jan1 invoiceGenerator 41).
  - lia.
  - apply Z.leb_le. reflexivity.
  - apply Z.ltb_lt. reflexivity.
  - reflexivity.
Defined.

(** X16: when the date segment of a valid code differs from the current
    date key, [increment] with a width of at least 1 returns the code of
    sequence 1 for the current key at the configured width and leaves the
    instance unchanged, however wide the old code's sequence segment was. *)
Theorem increment_rolls_over (now : Clock) (this : SequentialGenerator)
  (lastCode : string) :
  validate now this lastCode = true ->
  extractDate now this lastCode <> getDateKey now this ->
  1 <= sequentialLength this ->
  increment now this lastCode
  = (Return (compose this (getDateKey now this)
               (padStart "1" (sequentialLength this) "0")), this).
Proof.
  intros Hv Hd Hw. unfold increment. rewrite Hv. cbn [negb]. cbv zeta.
  destruct (String.eqb_spec (extractDate now this lastCode) (getDateKey now this))
    as [E|_]; [congruence|].
  rewrite generateFromSequence_fits
    by (change (strlen (toString (Num 1))) with 1; exact Hw).
  now rewrite truthyOr_same.
Qed.

Lemma increment_rolls_over_witness :
  increment (fixedClock "20230102") invoiceGenerator "INV-20230101-0000057"
  = (Return "INV-20230102-0001", invoiceGenerator).
Proof.
  apply (increment_rolls_over (fixedClock "20230102") invoiceGenerator
           "INV-20230101-0000057").
  - reflexivity.
  - discriminate.
  - apply Z.leb_le. reflexivity.
Defined.

(** X17: [parse] undoes [generateFromSequence]: for a safe integer
    [n >= 1] that fits the width and a separator that is empty or does not
    end in a digit, parsing the generated code returns the prefix, the date
    key and [n], and the instance is unchanged. *)
Theorem parse_after_generateFromSequence (now : Clock) (this : SequentialGenerator)
  (n : Z) :
  1 <= n ->
  n <= MAX_SAFE_INTEGER ->
  strlen (toString (Num n)) <= sequentialLength this ->
  endsWithDigit (separator this) = false ->
  parse now this (fst (generateFromSequence now (Num n) None this))
  = (Return (mkParsed (prefix this) (getDateKey now this) (Num n)), this).
Proof.
  intros Hn _ Hfit He.
  pose proof (generated_code_valid now n None this
                ltac:(lia) He eq_refl) as Hv.
  rewrite generateFromSequence_fits in * by assumption.
  cbn [fst snd truthyOr] in *. unfold sequenceString_of in *.
  assert (Hd : allDigits (padStart (toString (Num n)) (sequentialLength this) "0")
               = true) by (apply allDigits_padStart; lia).
  rewrite parse_valid by exact Hv.
  rewrite extractDate_compose by assumption.
  unfold extractSequence. rewrite sequenceSegment_compose by assumption.
  now rewrite parseInt_padStart by lia.
Qed.

Lemma parse_after_generateFromSequence_witness :
  parse jan1 invoiceGenerator
    (fst (generateFromSequence jan1 (Num 7) None invoiceGenerator))
  = (Return (mkParsed "INV" "20230101" (Num 7)), invoiceGenerator).
Proof.
  apply (parse_after_generateFromSequence jan1 invoiceGenerator 7).
  - lia.
  - apply Z.leb_le. reflexivity.
  - apply Z.leb_le. reflexivity.
  - reflexivity.
Defined.

(** X18: every instance rejects the empty code: [validate("")] is false,
    and [increment("")] and [parse("")] throw and leave the instance
    unchanged. *)
Theorem empty_code_is_rejected (now : Clock) (this : SequentialGenerator) :
  validate now this "" = false /\
  increment now this ""
  = (Throw "Invalid code format provided to increment", this) /\
  parse now this "" = (Throw "Invalid code format provided to parse", this).
Proof.
  assert (Hv : validate now this "" = false).
  { unfold validate. destruct (startsWith "" (prefix this)); [|reflexivity].
    cbn [negb]. cbv zeta.
    pose proof (strlen_nonneg (prefix this)).
    pose proof (strlen_nonneg (separator this)).
    assert (0 <= getDateFormatLength now this) by apply strlen_nonneg.
    change (strlen "") with 0.
    destruct (Z.ltb_spec 0 (strlen (prefix this) + strlen (separator this) * 2
                            + getDateFormatLength now this + 1)); [reflexivity | lia]. }
  split; [exact Hv|]. split.
  - now apply increment_invalid.
  - now apply parse_invalid.
Qed.

(** ** Further properties: [increment] on the same day *)

(** The instance on which [increment] renders the next sequence. *)
Lemma adopted_width (this : SequentialGenerator) (L : Z) :
  (if L >? sequentialLength this then set_sequentialLength L this else this)
  = set_sequentialLength (Z.max (sequentialLength this) L) this.
Proof.
  destruct (Z.gtb_spec L (sequentialLength this)).
  - now rewrite Z.max_r by lia.
  - rewrite Z.max_l by lia. symmetry. apply set_sequentialLength_same.
Qed.

(** X19: for a valid code that carries the current date key and the
    sequence [n], with [n + 1] a safe integer, [increment] works at the
    width [W], the larger of the configured width and the length of the
    code's sequence segment: when [n + 1 < 10^W] it returns the code of
    [n + 1] padded to [W] and sets the width to [W]. *)
Theorem increment_counts_at_wider_width (now : Clock) (this : SequentialGenerator)
  (lastCode : string) (n : Z) :
  validate now this lastCode = true ->
  extractDate now this lastCode = getDateKey now this ->
  extractSequence now this lastCode = Num n ->
  n + 1 <= MAX_SAFE_INTEGER ->
  let W := Z.max (sequentialLength this)
                 (strlen (sequenceSegment now this lastCode)) in
  n + 1 < 10 ^ W ->
  increment now this lastCode
  = (Return (compose this (getDateKey now this)
               (padStart (toString (Num (n + 1))) W "0")),
     set_sequentialLength W this).
Proof.
  intros Hv Hd Hs _ W Hlt.
  destruct (valid_sequence_number now this lastCode Hv) as (n' & Hn' & Hs' & _).
  assert (n' = n) by congruence. subst n'.
  rewrite (increment_same_day now this lastCode Hv Hd). cbv zeta.
  rewrite adopted_width. fold W. rewrite Hs. cbn [plus1].
  rewrite generateFromSequence_fits
    by (cbn [sequentialLength set_sequentialLength]; apply fits_iff_below_power; lia).
  cbn [fst snd]. unfold compose, sequenceString_of, getDateKey.
  cbn [prefix separator timeZone dateFormat sequentialLength set_sequentialLength].
  fold (getDateKey now this). now rewrite truthyOr_same.
Qed.

Lemma increment_counts_at_wider_width_witness :
  increment jan1 invoiceGenerator "INV-20230101-7"
  = (Return "INV-20230101-0008", set_sequentialLength 4 invoiceGenerator) /\
  increment jan1 invoiceGenerator "INV-20230101-000099"
  = (Return "INV-20230101-000100", set_sequentialLength 6 invoiceGenerator).
Proof.
  split.
  - apply (increment_counts_at_wider_width jan1 invoiceGenerator "INV-20230101-7" 7).
    + reflexivity.
    + reflexivity.
    + reflexivity.
    + apply Z.leb_le. reflexivity.
    + apply Z.ltb_lt. reflexivity.
  - apply (increment_counts_at_wider_width jan1 invoiceGenerator
             "INV-20230101-000099" 99).
    + reflexivity.
    + reflexivity.
    + reflexivity.
    + apply Z.leb_le. reflexivity.
    + apply Z.ltb_lt. reflexivity.
Defined.

(** X20: in the same situation ([n + 1] a safe integer), when [n + 1] has
    reached [10^W], [increment] raises the width to [W + 1] and returns the
    code of sequence 1 at that width; the sequence does not continue. *)
Theorem increment_restarts_at_power (now : Clock) (this : SequentialGenerator)
  (lastCode : string) (n : Z) :
  validate now this lastCode = true ->
  extractDate now this lastCode = getDateKey now this ->
  extractSequence now this lastCode = Num n ->
  n + 1 <= MAX_SAFE_INTEGER ->
  let W := Z.max (sequentialLength this)
                 (strlen (sequenceSegment now this lastCode)) in
  10 ^ W <= n + 1 ->
  increment now this lastCode
  = (Return (compose this (getDateKey now this) (padStart "1" (W + 1) "0")),
     set_sequentialLength (W + 1) this).
Proof.
  intros Hv Hd Hs _ W Hge.
  destruct (valid_sequence_number now this lastCode Hv) as (n' & Hn' & Hs' & _).
  assert (n' = n) by congruence. subst n'.
  assert (HW : 0 <= W)
    by (pose proof (StringFacts.strlen_nonneg (sequenceSegment now this lastCode));
        subst W; lia).
  rewrite (increment_same_day now this lastCode Hv Hd). cbv zeta.
  rewrite adopted_width. fold W. rewrite Hs. cbn [plus1].
  rewrite generateFromSequence_overflow
    by (apply overflows_iff_power;
        [lia | cbn [sequentialLength set_sequentialLength]; exact Hge]).
  cbn [fst snd sequentialLength set_sequentialLength].
  rewrite Z.max_l by lia.
  unfold compose, getDateKey.
  cbn [prefix separator timeZone dateFormat set_sequentialLength].
  fold (getDateKey now this). now rewrite truthyOr_same.
Qed.

Lemma increment_restarts_at_power_witness :
  increment jan1 invoiceGenerator "INV-20230101-9999"
  = (Return "INV-20230101-00001", set_sequentialLength 5 invoiceGenerator).
Proof.
  apply (increment_restarts_at_power jan1 invoiceGenerator "INV-20230101-9999" 9999).
  - reflexivity.
  - reflexivity.
  - reflexivity.
  - apply Z.leb_le. reflexivity.
  - apply Z.leb_le. reflexivity.
Defined.

(** ** Further properties: a valid code is the sum of its segments *)

Module SplitFacts.
Import StringFacts.

Lemma take_app_plus (p r : string) (n : nat) :
  take (String.length p + n) (p ++ r) = p ++ take n r.
Proof. induction p as [|c p IH]; simpl; [reflexivity | now rewrite IH]. Qed.

(** Of two prefixes of one string the longer one extends the shorter. *)
Lemma app_eq_prefix (p r a t : string) :
  p ++ r = a ++ t -> (String.length p <= String.length a)%nat ->
  a = p ++ drop (String.length p) a.
Proof.
  revert a. induction p as [|c p IH]; intros a H Hl.
  - destruct a; reflexivity.
  - destruct a as [|x a]; [simpl in Hl; lia|].
    simpl in H. injection H as -> H. simpl. f_equal.
    apply IH; [assumption | simpl in Hl; lia].
Qed.

End SplitFacts.

(** X21: a valid code is exactly its pieces put back together.  Provided
    that, with a non-empty separator, its last occurrence lies strictly
    behind the prefix-and-separator region, the code equals the prefix,
    then as many characters as the separator has, then [extractDate(code)],
    the separator, and the sequence segment. *)
Theorem valid_code_reassembles (now : Clock) (this : SequentialGenerator)
  (code : string) :
  validate now this code = true ->
  (truthy (separator this) = true ->
   strlen (prefix this) + strlen (separator this)
   < lastIndexOf code (separator this)) ->
  exists gap,
    strlen gap = strlen (separator this) /\
    code = prefix this ++ gap ++ extractDate now this code
           ++ separator this ++ sequenceSegment now this code.
Proof.
  intros Hv Hguard.
  destruct (sequenceStartIndex_valid now this code Hv) as [Hrange Hstart].
  pose proof Hv as Hv'. apply validate_iff in Hv'.
  destruct Hv' as (Hp & Hlen & Hsep & _).
  apply StringFacts.startsWith_iff in Hp. destruct Hp as [rest Hcode].
  pose proof (StringFacts.strlen_nonneg (prefix this)) as Hpl.
  assert (Hdl : 0 <= getDateFormatLength now this) by apply StringFacts.strlen_nonneg.
  unfold sequenceSegment, extractDate. cbv zeta. rewrite Hstart.
  destruct (truthy (separator this)) eqn:Ht.
  - specialize (Hguard eq_refl). specialize (Hsep eq_refl).
    pose proof (StringFacts.truthy_strlen _ Ht) as Hsl.
    destruct (LastIndexFacts.lastIndexOf_spec (separator this) code)
      as [[E _] | (k & Hk & Hocc & _)]; [congruence|].
    destruct (proj1 (LastIndexFacts.occursAt_split _ _ _) Hocc) as (a & b & Hab & Ha).
    rewrite Hk in *. subst k.
    destruct (Z.gtb_spec (Z.of_nat (String.length a))
                (strlen (prefix this) + strlen (separator this))) as [_|]; [|lia].
    unfold strlen in *.
    assert (Hs0 : Z.to_nat (Z.of_nat (String.length (prefix this))
                            + Z.of_nat (String.length (separator this)))
                  = (String.length (prefix this) + String.length (separator this))%nat)
      by lia.
    assert (Hrng : Z.of_nat (String.length code)
                   = Z.of_nat (String.length a + String.length (separator this)
                               + String.length b)%nat)
      by (rewrite Hab, !StringFacts.length_app; lia).
    fold (strlen code) in *.
    rewrite StringFacts.substring_range by (unfold strlen in *; lia).
    rewrite StringFacts.substring_from by (unfold strlen in *; lia).
    rewrite Hs0.
    assert (Hdrop : drop (Z.to_nat (Z.of_nat (String.length a)
                                    + Z.of_nat (String.length (separator this)))) code
                    = b).
    { replace (Z.to_nat _) with (String.length (a ++ separator this))
        by (rewrite StringFacts.length_app; lia).
      rewrite Hab at 1. rewrite <- StringFacts.app_assoc.
      apply StringFacts.drop_app_exact. }
    rewrite Hdrop.
    set (s0 := (String.length (prefix this) + String.length (separator this))%nat) in *.
    assert (Hda : drop s0 code = drop s0 a ++ separator this ++ b)
      by (rewrite Hab at 1; apply StringFacts.drop_app_le; lia).
    rewrite Hda.
    replace (Z.to_nat _) with (String.length (drop s0 a))
      by (rewrite StringFacts.length_drop; lia).
    rewrite StringFacts.take_app_exact.
    assert (Hpa : a = prefix this ++ drop (String.length (prefix this)) a)
      by (apply (SplitFacts.app_eq_prefix _ rest _ (separator this ++ b));
          [congruence | lia]).
    exists (take (String.length (separator this))
              (drop (String.length (prefix this)) a)).
    split.
    + rewrite StringFacts.length_take; [reflexivity|].
      rewrite StringFacts.length_drop. lia.
    + rewrite Hab at 1. rewrite <- (StringFacts.take_drop s0 a) at 1.
      rewrite Hpa at 1. subst s0. rewrite SplitFacts.take_app_plus.
      now rewrite !StringFacts.app_assoc.
  - apply StringFacts.truthy_false in Ht. rewrite Ht in *.
    change (strlen "") with 0 in *. cbn [append]. rewrite !Z.add_0_r in *.
    exists "". split; [reflexivity|]. cbn [append].
    rewrite StringFacts.substring_range by lia.
    rewrite StringFacts.substring_from by lia.
    assert (Hrl : strlen code = strlen (prefix this) + strlen rest)
      by (rewrite Hcode; apply StringFacts.strlen_app).
    unfold strlen in *.
    replace (Z.to_nat (Z.of_nat (String.length (prefix this))))
      with (String.length (prefix this)) by lia.
    replace (Z.to_nat (Z.of_nat (String.length (prefix this))
                       + getDateFormatLength now this))
      with (String.length (prefix this)
            + Z.to_nat (getDateFormatLength now this))%nat by lia.
    rewrite Hcode at 2 3.
    rewrite StringFacts.drop_app_exact.
    rewrite StringFacts.drop_app_ge by lia.
    replace (_ + _ - _)%nat with (Z.to_nat (getDateFormatLength now this)) by lia.
    replace (Z.to_nat (_ + _ - _)) with (Z.to_nat (getDateFormatLength now this)) by lia.
    rewrite StringFacts.take_drop. exact Hcode.
Qed.

Lemma valid_code_reassembles_witness :
  exists gap,
    strlen gap = 1 /\
    "INV-20230101-0042"
    = "INV" ++ gap ++ extractDate jan1 invoiceGenerator "INV-20230101-0042"
      ++ "-" ++ sequenceSegment jan1 invoiceGenerator "INV-20230101-0042".
Proof.
  apply (valid_code_reassembles jan1 invoiceGenerator "INV-20230101-0042").
  - reflexivity.
  - intros _. apply Z.ltb_lt. reflexivity.
Defined.
